(** * Jobly: the query-construction layer and its gates

    A shallow embedding of [helpers/sql.js], [models/job.js],
    [models/company.js] and [routes/jobs.js], and the properties of the
    update compiler, the filter compilers, the repositories and the
    authorization gate.

    JavaScript objects whose key order matters ([Object.keys],
    [Object.entries], [for ... in]) are association lists in enumeration
    order; an object used only for lookups ([jsToSql]) is a [gmap].
    Template literals that emit a placeholder are kept as lists of pieces
    and rendered to the SQL text by [render]. *)

From Stdlib Require Import ZArith Lia Ascii.
From stdpp Require Import gmap strings list pretty.

Open Scope string_scope.
Open Scope list_scope.

(** ** JavaScript values *)

Module JS.

(** A number is a double: an integer, a finite number that is not an
    integer (its exact value [num/den], together with the text
    [ToString] gives it), an infinity, or [NaN]. Zero and minus zero are
    one value: the code compares, prints and binds numbers, and none of
    the three tells them apart. The values are the scalars a parsed
    query string or a validated JSON body holds at the keys the
    repositories read. *)
Inductive number :=
| Int (z : Z)
| NaN
| Infinity (negative : bool)
| Fraction (num : Z) (den : positive) (text : string).

Inductive value :=
| VUndefined
| VNull
| VBool (b : bool)
| VNum (n : number)
| VStr (s : string).

#[global] Instance number_eq_dec : EqDecision number.
Proof. solve_decision. Defined.

#[global] Instance value_eq_dec : EqDecision value.
Proof. solve_decision. Defined.

(** An object in enumeration order. Keys are unique in a JavaScript
    object: [wf] says so. *)
Abbreviation object := (list (string * value)) (only parsing).

Definition wf (o : object) : Prop := NoDup o.*1.

Definition Object_keys (o : object) : list string := o.*1.

Definition Object_values (o : object) : list value := o.*2.

(** [ToString], as a template literal applies it to [${v}]. *)
Definition number_to_string (n : number) : string :=
  match n with
  | Int z => pretty z
  | NaN => "NaN"
  | Infinity false => "Infinity"
  | Infinity true => "-Infinity"
  | Fraction _ _ text => text
  end.

(** The exact value of a finite number, as a fraction. *)
Definition ratio (n : number) : option (Z * positive) :=
  match n with
  | Int z => Some (z, 1%positive)
  | Fraction num den _ => Some (num, den)
  | NaN | Infinity _ => None
  end.

(** [x > y] on numbers: false when either side is [NaN], the order of
    the extended reals otherwise. *)
Definition number_gt (x y : number) : bool :=
  match x, y with
  | NaN, _ | _, NaN => false
  | Infinity true, _ | _, Infinity false => false
  | Infinity false, _ | _, Infinity true => true
  | _, _ =>
      match ratio x, ratio y with
      | Some (a, b), Some (c, d) => bool_decide (c * Z.pos b < a * Z.pos d)%Z
      | _, _ => false
      end
  end.

Definition to_string (v : value) : string :=
  match v with
  | VUndefined => "undefined"
  | VNull => "null"
  | VBool true => "true"
  | VBool false => "false"
  | VNum n => number_to_string n
  | VStr s => s
  end.

(** The part of the runtime the model does not fix: [ToNumber] on a
    string (the grammar of numeric literals). *)
Class Runtime := { StringToNumber : string → number }.

(** Unary plus, [+v]. *)
Definition to_number `{Runtime} (v : value) : number :=
  match v with
  | VUndefined => NaN
  | VNull => Int 0
  | VBool true => Int 1
  | VBool false => Int 0
  | VNum n => n
  | VStr s => StringToNumber s
  end.

(** [Array.prototype.join]. *)
Definition join (sep : string) (l : list string) : string := String.concat sep l.

(** An instance for closed examples: decimal digit strings, the empty
    string being 0; every other string is outside this instance and
    reads as [NaN]. *)
Definition digit_of (c : ascii) : option Z :=
  let n := Z.of_nat (nat_of_ascii c) in
  if decide (48 ≤ n ≤ 57)%Z then Some (n - 48)%Z else None.

Fixpoint digits_from (acc : Z) (s : string) : number :=
  match s with
  | EmptyString => Int acc
  | String c s' =>
      match digit_of c with
      | Some d => digits_from (10 * acc + d) s'
      | None => NaN
      end
  end.

Definition decimal_runtime : Runtime := {| StringToNumber := digits_from 0 |}.

End JS.

Import JS.

(** ** Errors thrown by the application

    [expressError.js] is not among the sources. [BadRequestError] and
    [NotFoundError] are the classes the models and routes import and
    throw; [UnauthorizedError] and [ForbiddenError] are the two failure
    kinds §7 of the specification gives the gate; [PgError] stands for
    an exception raised by [db.query] itself. *)
Inductive exn :=
| BadRequestError (msg : string)
| NotFoundError (msg : string)
| UnauthorizedError
| ForbiddenError
| PgError (msg : string).

#[global] Instance exn_eq_dec : EqDecision exn.
Proof. solve_decision. Defined.

(** ** helpers/sql.js *)

Module Sql.

(** A template literal of the compilers: literal text and [$n]
    placeholders. *)
Inductive piece :=
| Lit (s : string)
| Placeholder (n : nat).

#[global] Instance piece_eq_dec : EqDecision piece.
Proof. solve_decision. Defined.

Abbreviation fragment := (list piece) (only parsing).

Definition render_piece (p : piece) : string :=
  match p with
  | Lit s => s
  | Placeholder n => "$" +:+ pretty n
  end.

Definition render (f : fragment) : string := String.concat EmptyString (render_piece <$> f).

(** The placeholder indices a fragment emits, left to right. *)
Definition placeholders (f : fragment) : list nat :=
  omap (λ p, match p with Placeholder n => Some n | Lit _ => None end) f.

Definition dquote : string := String (ascii_of_nat 34) EmptyString.

(** [jsToSql[colName] || colName]: a missing entry and the empty string
    are falsy. *)
Definition column_of (jsToSql : gmap string string) (colName : string) : string :=
  match jsToSql !! colName with
  | Some c => if decide (c = EmptyString) then colName else c
  | None => colName
  end.

(** [keys.map((colName, idx) => `"${...}"=$${idx + 1}`)]. *)
Definition cols (keys : list string) (jsToSql : gmap string string) : list fragment :=
  imap (λ idx colName,
          [Lit (dquote +:+ column_of jsToSql colName +:+ dquote +:+ "=");
           Placeholder (idx + 1)]) keys.

Record partial_update := {
  setCols : string;
  values : list value;
}.

Definition sqlForPartialUpdate (dataToUpdate : object) (jsToSql : gmap string string)
  : exn + partial_update :=
  let keys := Object_keys dataToUpdate in
  if decide (length keys = 0) then inl (BadRequestError "No data")
  else
    inr {| setCols := join ", " (render <$> cols keys jsToSql);
           values := Object_values dataToUpdate |}.

End Sql.

(** ** db.js: the store behind [db.query]

    A row is the object [pg] hands back, a table a list of rows. The log
    records every statement passed to [db.query], in order. *)

Module Db.

(** The statements the repositories issue; the arguments are the parts
    of the text the caller splices in. *)
Inductive sql :=
| SELECT_company_handle
    (* SELECT handle FROM companies WHERE handle = $1 *)
| INSERT_company
    (* INSERT INTO companies (handle, name, description, num_employees,
       logo_url) VALUES ($1, $2, $3, $4, $5) RETURNING ... *)
| SELECT_companies
    (* SELECT ... FROM companies ORDER BY name *)
| SELECT_companies_filtered (joinedQueries : string)
    (* SELECT ... FROM companies ${joinedQueries} ORDER BY name *)
| INSERT_job
    (* INSERT INTO jobs (title, salary, equity, company_handle)
       VALUES ($1, $2, $3, $4) RETURNING ... *)
| SELECT_jobs (whereClause : string)
    (* SELECT ... FROM jobs ${whereClause} ORDER BY company_handle *)
| UPDATE_job (setCols handleVarIdx : string)
    (* UPDATE jobs SET ${setCols} WHERE id = ${handleVarIdx} RETURNING ... *)
| DELETE_job
    (* DELETE FROM jobs WHERE id = $1 RETURNING id *).

#[global] Instance sql_eq_dec : EqDecision sql.
Proof. solve_decision. Defined.

Abbreviation statement := (sql * list value)%type (only parsing).

Record tables := {
  companies : list object;
  jobs : list object;
}.

Record state := {
  db : tables;
  log : list statement;
}.

(** A property read, [o.k] or [o[k]]: [undefined] when absent. *)
Definition prop (o : object) (k : string) : value :=
  match list_find (λ kv, kv.1 = k) o with
  | Some (_, (_, v)) => v
  | None => VUndefined
  end.

(** How a bound parameter reaches a text column: [null] and
    [undefined] are SQL NULL, anything else its text. *)
Definition pg_text (v : value) : option string :=
  match v with
  | VUndefined | VNull => None
  | _ => Some (to_string v)
  end.

(** [SELECT handle FROM companies WHERE handle = $1]: the rows whose
    handle is the parameter; NULL equals nothing. *)
Definition select_company_handle (params : list value) (t : tables) : list object :=
  match params with
  | [p] =>
      omap (λ row,
              match prop row "handle" with
              | VStr h => if decide (pg_text p = Some h) then Some [("handle", VStr h)] else None
              | _ => None
              end) (companies t)
  | _ => []
  end.

(** Every other statement is run by the store, which the sources do
    not contain: it answers with rows or raises, and may change the
    tables. *)
Class Postgres := { pg_exec : statement → tables → (string + list object) * tables }.

Definition exec `{Postgres} (s : statement) (t : tables) : (string + list object) * tables :=
  match s.1 with
  | SELECT_company_handle => (inr (select_company_handle s.2 t), t)
  | _ => pg_exec s t
  end.

(** Computations over the store that may throw. *)
Definition M (A : Type) : Type := state → (exn + A) * state.

#[global] Instance M_ret : MRet M := λ A a st, (inr a, st).

#[global] Instance M_bind : MBind M := λ A B f m st,
  match m st with
  | (inr a, st') => f a st'
  | (inl e, st') => (inl e, st')
  end.

Definition throw {A} (e : exn) : M A := λ st, (inl e, st).

(** [await db.query(text, values)], giving [result.rows]. *)
Definition query `{Postgres} (text : sql) (values : list value) : M (list object) :=
  λ st,
    let '(r, t') := exec (text, values) (db st) in
    let st' := {| db := t'; log := log st ++ [(text, values)] |} in
    match r with
    | inr rows => (inr rows, st')
    | inl msg => (inl (PgError msg), st')
    end.

End Db.

Import Db.

(** ** models/job.js *)

Module Job.

Import Sql.

Definition create `{Postgres} (data : object) : M (option object) :=
  let title := prop data "title" in
  let salary := prop data "salary" in
  let equity := prop data "equity" in
  let companyHandle := prop data "companyHandle" in
  compHandleCheck ← query SELECT_company_handle [companyHandle];
  match head compHandleCheck with
  | None => throw (BadRequestError ("Company '" +:+ to_string companyHandle +:+ "' does not exist"))
  | Some _ =>
      result ← query INSERT_job [title; salary; equity; companyHandle];
      mret (head result)
  end.

(** One turn of the [for ... of Object.entries(filterBy)] loop: the
    [switch] on the key, over the two arrays it pushes to. *)
Definition filter_case (acc : list fragment * list value) (entry : string * value)
  : list fragment * list value :=
  let '(filters, values) := acc in
  let '(key, value) := entry in
  if decide (key = "titleLike") then
    (filters ++ [[Lit "title ILIKE "; Placeholder (length filters + 1)]],
     values ++ [VStr ("%" +:+ to_string value +:+ "%")])
  else if decide (key = "minSalary") then
    (filters ++ [[Lit "salary >= "; Placeholder (length filters + 1)]],
     values ++ [value])
  else if decide (key = "hasEquity") then
    (filters ++ [[Lit "equity > 0"]], values)
  else acc.

Definition filter_loop (filterBy : object) : list fragment * list value :=
  foldl filter_case ([], []) filterBy.

(** [whereClause] and [values] as [findAll] has them when it builds
    the query. *)
Definition where_clause (filterBy : object) : string * list value :=
  if decide (0 < length (Object_keys filterBy)) then
    let '(filters, values) := filter_loop filterBy in
    ("WHERE " +:+ join " AND " (render <$> filters), values)
  else (EmptyString, []).

Definition findAll `{Postgres} (filterBy : object) : M (list object) :=
  let '(whereClause, values) := where_clause filterBy in
  rows ← query (SELECT_jobs whereClause) values;
  if decide (length rows = 0) then throw (NotFoundError "No jobs match the parameters")
  else mret rows.

Definition update `{Postgres} (id : value) (data : object) : M object :=
  match sqlForPartialUpdate data {[ "companyHandle" := "company_handle" ]} with
  | inl e => throw e
  | inr r =>
      let handleVarIdx := "$" +:+ pretty (length (Sql.values r) + 1) in
      rows ← query (UPDATE_job (setCols r) handleVarIdx) (Sql.values r ++ [id]);
      match head rows with
      | None => throw (NotFoundError ("No job has the id: " +:+ to_string id))
      | Some job => mret job
      end
  end.

Definition remove `{Postgres} (id : value) : M unit :=
  rows ← query DELETE_job [id];
  match head rows with
  | None => throw (NotFoundError ("No job with id: " +:+ to_string id))
  | Some _ => mret ()
  end.

End Job.

(** ** models/company.js *)

Module Company.

Import Sql.

Definition create `{Postgres} (data : object) : M (option object) :=
  let handle := prop data "handle" in
  let name := prop data "name" in
  let description := prop data "description" in
  let numEmployees := prop data "numEmployees" in
  let logoUrl := prop data "logoUrl" in
  duplicateCheck ← query SELECT_company_handle [handle];
  match head duplicateCheck with
  | Some _ => throw (BadRequestError ("Duplicate company: " +:+ to_string handle))
  | None =>
      result ← query INSERT_company [handle; name; description; numEmployees; logoUrl];
      mret (head result)
  end.

(** The three variables the filter loop of [findAll] updates. *)
Record filter_state := {
  filterQueries : list fragment;
  values : list value;
  idx : nat;
}.

Definition push (s : filter_state) (f : fragment) (v : value) : filter_state :=
  {| filterQueries := filterQueries s ++ [f];
     values := values s ++ [v];
     idx := idx s + 1 |}.

(** One turn of [for (let key in filterBy)]; [v] is [filterBy[key]]. *)
Definition filter_case `{Runtime} (s : filter_state) (entry : string * value) : filter_state :=
  let '(key, v) := entry in
  if decide (idx s = 1) then
    if decide (key = "nameLike") then
      push s [Lit "WHERE name ILIKE "; Placeholder (idx s)] (VStr ("%" +:+ to_string v +:+ "%"))
    else if decide (key = "minEmployees") then
      push s [Lit "WHERE num_employees >= "; Placeholder (idx s)] (VNum (to_number v))
    else if decide (key = "maxEmployees") then
      push s [Lit "WHERE num_employees <= "; Placeholder (idx s)] (VNum (to_number v))
    else s
  else
    if decide (key = "nameLike") then
      push s [Lit "name ILIKE "; Placeholder (idx s)] (VStr ("%" +:+ to_string v +:+ "%"))
    else if decide (key = "minEmployees") then
      push s [Lit "num_employees >= "; Placeholder (idx s)] (VNum (to_number v))
    else if decide (key = "maxEmployees") then
      push s [Lit "num_employees <= "; Placeholder (idx s)] (VNum (to_number v))
    else s.

Definition filter_loop `{Runtime} (filterBy : object) : filter_state :=
  foldl filter_case {| filterQueries := []; values := []; idx := 1 |} filterBy.

(** [filterBy] is [None] for [undefined], the default. *)
Definition findAll `{Runtime} `{Postgres} (filterBy : option object) : M (list object) :=
  match filterBy with
  | None =>
      companiesRes ← query SELECT_companies [];
      if decide (length companiesRes = 0)
      then throw (NotFoundError "No companies exist in database")
      else mret companiesRes
  | Some filterBy =>
      let s := filter_loop filterBy in
      let joinedQueries := join " AND " (render <$> filterQueries s) in
      filteredRes ← query (SELECT_companies_filtered joinedQueries) (values s);
      if decide (length filteredRes = 0)
      then throw (NotFoundError "No companies match the parameters")
      else mret filteredRes
  end.

End Company.

(** ** routes/jobs.js *)

Module Routes.

(** The payload of the caller's token, [res.locals.user]; [None] when
    the request carries no valid token. *)
Record user := {
  username : string;
  isAdmin : bool;
}.

Record request := {
  locals_user : option user;
  query_string : object;
  params_id : value;
  body : object;
}.

Inductive payload :=
| job_payload (job : option object)
| jobs_payload (jobs : list object)
| deleted_payload (deleted : string).

Record response := {
  statusCode : Z;
  json : payload;
}.

(** [jsonschema.validate(body, schema).errors], as the stacks the
    handlers collect; [valid] is the absence of errors. The schema
    files are not among the sources. *)
Class Schemas := {
  jobNewSchema : object → list string;
  jobUpdateSchema : object → list string;
}.

(** Modelled from the spec: [ensureLoggedIn] of [middleware/auth.js],
    which is missing from the sources. It is §4.4's
    [requireAuthenticated]: it fails with [Unauthorized] if the caller
    is [Anonymous]. *)
Definition ensureLoggedIn (req : request) : exn + unit :=
  match locals_user req with
  | None => inl UnauthorizedError
  | Some _ => inr ()
  end.

(** Modelled from the spec: [ensureAdmin] of the missing
    [middleware/auth.js]. It is §4.4's [requireAdmin]: it fails with
    [Forbidden] if the caller is not [Admin], and a caller is [Admin]
    only if the credential carries that role claim. *)
Definition ensureAdmin (req : request) : exn + unit :=
  match locals_user req with
  | Some u => if isAdmin u then inr () else inl ForbiddenError
  | None => inl ForbiddenError
  end.

(** [router.METHOD(path, gate1, ..., handler)]: the gates run in order,
    and the first one that fails passes its error to [next], skipping
    what follows. *)
Definition route (gates : list (request → exn + unit)) (handler : request → M response)
  (req : request) : M response :=
  foldr (λ gate next, match gate req with inl e => throw e | inr _ => next end)
    (handler req) gates.

(** The handlers throw [new BadRequestError(errs)] with the array of
    stacks; the message is written here as the text of the array. *)
Definition POST_handler `{Postgres} `{Schemas} (req : request) : M response :=
  let errs := jobNewSchema (body req) in
  if decide (errs = []) then
    job ← Job.create (body req);
    mret {| statusCode := 201; json := job_payload job |}
  else throw (BadRequestError (join "," errs)).

Definition POST `{Postgres} `{Schemas} : request → M response :=
  route [ensureLoggedIn; ensureAdmin] POST_handler.

Definition supportedFilters : list string := ["titleLike"; "minSalary"; "hasEquity"].

(** The validation loop of [GET /], [for (let key in filterBy)]. *)
Fixpoint check_filters (filterBy : object) : exn + unit :=
  match filterBy with
  | [] => inr ()
  | (key, v) :: rest =>
      if negb (bool_decide (key ∈ supportedFilters)) then
        inl (BadRequestError ("Cannot filter results by parameter '" +:+ key +:+ "'"))
      else if bool_decide (key ∈ ["titleLike"; "minSalary"]) && bool_decide (v = VStr EmptyString) then
        inl (BadRequestError ("Missing value for parameter '" +:+ key +:+ "'"))
      else check_filters rest
  end.

Definition GET_handler `{Postgres} (req : request) : M response :=
  let filterBy := query_string req in
  if decide (length (Object_keys filterBy) = 0) then
    jobs ← Job.findAll [];
    mret {| statusCode := 200; json := jobs_payload jobs |}
  else
    match check_filters filterBy with
    | inl e => throw e
    | inr _ =>
        filteredJobs ← Job.findAll filterBy;
        mret {| statusCode := 200; json := jobs_payload filteredJobs |}
    end.

Definition GET `{Postgres} : request → M response := route [] GET_handler.

Definition PATCH_handler `{Postgres} `{Schemas} (req : request) : M response :=
  let errs := jobUpdateSchema (body req) in
  if decide (errs = []) then
    job ← Job.update (params_id req) (body req);
    mret {| statusCode := 200; json := job_payload (Some job) |}
  else throw (BadRequestError (join "," errs)).

Definition PATCH `{Postgres} `{Schemas} : request → M response :=
  route [ensureLoggedIn; ensureAdmin] PATCH_handler.

Definition DELETE_handler `{Postgres} (req : request) : M response :=
  _ ← Job.remove (params_id req);
  mret {| statusCode := 200; json := deleted_payload ("Job: " +:+ to_string (params_id req)) |}.

Definition DELETE `{Postgres} : request → M response :=
  route [ensureLoggedIn; ensureAdmin] DELETE_handler.

End Routes.

(** ** Closed instances

    The fixtures of [routes/_testCommon.js], for the closed examples. *)

Module Examples.

Import Routes.

(** A store that answers every statement with no row and changes
    nothing. *)
Definition no_rows : Postgres := {| pg_exec := λ _ t, (inr [], t) |}.

(** A runtime that reads the literal [2.5] as the double of that
    value, and digit strings as [decimal_runtime] does. *)
Definition half_runtime : Runtime :=
  {| StringToNumber := λ s, if decide (s = "2.5") then Fraction 5 2 "2.5" else digits_from 0 s |}.

(** Schemas that accept every body. *)
Definition accept_all : Schemas := {| jobNewSchema := λ _, []; jobUpdateSchema := λ _, [] |}.

Definition company_row (handle name description : string) (numEmployees : Z) (logoUrl : string)
  : object :=
  [("handle", VStr handle); ("name", VStr name); ("description", VStr description);
   ("num_employees", VNum (Int numEmployees)); ("logo_url", VStr logoUrl)].

Definition st0 : state :=
  {| db := {| companies := [company_row "c1" "C1" "Desc1" 1 "http://c1.img";
                            company_row "c2" "C2" "Desc2" 2 "http://c2.img";
                            company_row "c3" "C3" "Desc3" 3 "http://c3.img"];
              jobs := [] |};
     log := [] |}.

Definition u1 : user := {| username := "u1"; isAdmin := true |}.
Definition u2 : user := {| username := "u2"; isAdmin := false |}.

Definition newJob : object :=
  [("title", VStr "j5"); ("salary", VNum (Int 500)); ("equity", VNull);
   ("companyHandle", VStr "c1")].

Definition post_as (caller : option user) : request :=
  {| locals_user := caller; query_string := []; params_id := VUndefined; body := newJob |}.

Definition get_with (filterBy : object) : request :=
  {| locals_user := None; query_string := filterBy; params_id := VUndefined; body := [] |}.

End Examples.

(** ** Vocabulary of the properties

    What the statements below measure on the compilers' outputs and on
    the routes' errors. *)

Module Observe.

Import Sql.

(** What one entry of a job request appends to [values]. *)
Definition bound_value (entry : string * value) : option value :=
  if decide (entry.1 = "titleLike") then Some (VStr ("%" +:+ to_string entry.2 +:+ "%"))
  else if decide (entry.1 = "minSalary") then Some entry.2
  else None.

(** The fixed predicate of the [hasEquity] case. *)
Definition presence : fragment := [Lit "equity > 0"].

Definition count_presence (filters : list fragment) : nat :=
  length (filter (λ f, f = presence) filters).

Definition count_placeholders (filters : list fragment) : nat :=
  length (concat (placeholders <$> filters)).

(** What the loop of [Company.findAll] keeps true: [idx] is one more
    than the number of bound values, and the placeholders emitted so
    far are 1, 2, ... in order, one per bound value. *)
Definition aligned (s : Company.filter_state) : Prop :=
  Company.idx s = length (Company.values s) + 1
  ∧ length (Company.filterQueries s) = length (Company.values s)
  ∧ concat (placeholders <$> Company.filterQueries s) = seq 1 (length (Company.values s)).

(** The statement each [findAll] passes to [db.query]. *)
Definition Job_findAll_statement (filterBy : object) : statement :=
  (SELECT_jobs (Job.where_clause filterBy).1, (Job.where_clause filterBy).2).

Definition Company_findAll_statement `{Runtime} (filterBy : option object) : statement :=
  match filterBy with
  | None => (SELECT_companies, [])
  | Some filterBy =>
      (SELECT_companies_filtered
         (join " AND " (render <$> Company.filterQueries (Company.filter_loop filterBy))),
       Company.values (Company.filter_loop filterBy))
  end.

(** The two errors of the validation loop of [GET /jobs]. *)
Definition invalid_parameter (key : string) : exn :=
  BadRequestError ("Cannot filter results by parameter '" +:+ key +:+ "'").

Definition missing_value (key : string) : exn :=
  BadRequestError ("Missing value for parameter '" +:+ key +:+ "'").

(** An entry the validation loop steps over. *)
Definition accepted (entry : string * value) : Prop :=
  entry.1 ∈ Routes.supportedFilters
  ∧ ¬ ((entry.1 ∈ ["titleLike"; "minSalary"]) ∧ entry.2 = VStr EmptyString).

End Observe.

Import Observe.

(** ** routes/companies.js: the filtered read *)

Module CompanyRoutes.

Import Routes.

(** [a > b] on two values that are numbers or [undefined]: both sides
    go through [ToNumber], and a comparison with [NaN] is false. *)
Definition gt `{Runtime} (a b : value) : bool :=
  number_gt (to_number a) (to_number b).

Definition range_error : exn :=
  BadRequestError "Minimum employees cannot be greater than maximum".

(** The validation loop of [GET /], [for (let key in filterBy)], over
    the two variables [minEmployees] and [maxEmployees] it assigns;
    both start [undefined]. *)
Fixpoint check_filters `{Runtime} (minEmployees maxEmployees : value) (filterBy : object)
  : exn + unit :=
  match filterBy with
  | [] => inr ()
  | (key, v) :: rest =>
      if decide (key ≠ "nameLike" ∧ key ≠ "minEmployees" ∧ key ≠ "maxEmployees") then
        inl (BadRequestError ("Cannot filter results by parameter '" +:+ key +:+ "'"))
      else if decide (v = VStr EmptyString) then
        inl (BadRequestError ("Missing value for parameter '" +:+ key +:+ "'"))
      else
        let minEmployees' :=
          if decide (key = "minEmployees") then VNum (to_number v) else minEmployees in
        let maxEmployees' :=
          if decide (key = "maxEmployees") then VNum (to_number v) else maxEmployees in
        if bool_decide (minEmployees' ≠ VUndefined) && bool_decide (maxEmployees' ≠ VUndefined)
           && gt minEmployees' maxEmployees'
        then inl range_error
        else check_filters minEmployees' maxEmployees' rest
  end.

Inductive payload :=
| company_payload (company : option object)
| companies_payload (companies : list object).

Record response := {
  statusCode : Z;
  json : payload;
}.

Definition GET_handler `{Runtime} `{Postgres} (req : request) : M response :=
  let filterBy := query_string req in
  if decide (length (Object_keys filterBy) = 0) then
    companies ← Company.findAll None;
    mret {| statusCode := 200; json := companies_payload companies |}
  else
    match check_filters VUndefined VUndefined filterBy with
    | inl e => throw e
    | inr _ =>
        filteredCompanies ← Company.findAll (Some filterBy);
        mret {| statusCode := 200; json := companies_payload filteredCompanies |}
    end.

(** [companyNewSchema], as [Schemas] has the job schemas. *)
Class Schemas := { companyNewSchema : object → list string }.

Definition POST_handler `{Postgres} `{Schemas} (req : request) : M response :=
  let errs := companyNewSchema (body req) in
  if decide (errs = []) then
    company ← Company.create (body req);
    mret {| statusCode := 201; json := company_payload company |}
  else throw (BadRequestError (join "," errs)).

End CompanyRoutes.

(** ** The earlier company routes (the second routes file for
    companies among the sources): the validation loop of [GET /] *)

Module EarlierCompanyRoutes.

(** This file throws [new ExpressError(message, 400)]. *)
Inductive express_error :=
| ExpressError (message : string) (status : Z).

(** The loop compares the two variables without asking whether they
    are still [undefined]. *)
Fixpoint check_filters `{Runtime} (minEmployees maxEmployees : value) (filterBy : object)
  : express_error + unit :=
  match filterBy with
  | [] => inr ()
  | (key, v) :: rest =>
      if decide (key ≠ "nameLike" ∧ key ≠ "minEmployees" ∧ key ≠ "maxEmployees") then
        inl (ExpressError ("Cannot filter results by " +:+ key) 400)
      else if decide (v = VStr EmptyString) then
        inl (ExpressError ("Missing value for parameter " +:+ key) 400)
      else
        let minEmployees' :=
          if decide (key = "minEmployees") then VNum (to_number v) else minEmployees in
        let maxEmployees' :=
          if decide (key = "maxEmployees") then VNum (to_number v) else maxEmployees in
        if CompanyRoutes.gt minEmployees' maxEmployees'
        then inl (ExpressError "Minimum employees cannot be greater than maximum" 400)
        else check_filters minEmployees' maxEmployees' rest
  end.

End EarlierCompanyRoutes.

(** ** Vocabulary of the further properties *)

Module Measure.

Import Sql.

(** A key whose case in [Job.findAll] binds a value. *)
Definition value_bearing (key : string) : bool :=
  bool_decide (key = "titleLike") || bool_decide (key = "minSalary").

(** No [titleLike] or [minSalary] entry stands after a [hasEquity]
    entry. *)
Fixpoint presence_last (filterBy : object) : bool :=
  match filterBy with
  | [] => true
  | (key, _) :: rest =>
      if bool_decide (key = "hasEquity")
      then forallb (λ entry, negb (value_bearing entry.1)) rest
      else presence_last rest
  end.

(** The placeholder indices [Job.findAll] emits for a request, when
    [filters] already holds [n] predicates. *)
Fixpoint emitted_indices (n : nat) (filterBy : object) : list nat :=
  match filterBy with
  | [] => []
  | (key, _) :: rest =>
      if value_bearing key then (n + 1) :: emitted_indices (n + 1) rest
      else if bool_decide (key = "hasEquity") then emitted_indices (n + 1) rest
      else emitted_indices n rest
  end.

(** The keys [Job.findAll] has a case for. *)
Definition job_key (key : string) : bool :=
  value_bearing key || bool_decide (key = "hasEquity").

(** The predicate text and the bound value of a company filter. *)
Definition company_text (key : string) : option string :=
  if decide (key = "nameLike") then Some "name ILIKE "
  else if decide (key = "minEmployees") then Some "num_employees >= "
  else if decide (key = "maxEmployees") then Some "num_employees <= "
  else None.

Definition company_value `{Runtime} (entry : string * value) : option value :=
  if decide (entry.1 = "nameLike") then Some (VStr ("%" +:+ to_string entry.2 +:+ "%"))
  else if decide (entry.1 = "minEmployees") then Some (VNum (to_number entry.2))
  else if decide (entry.1 = "maxEmployees") then Some (VNum (to_number entry.2))
  else None.

(** The i-th predicate of a company clause, counting from 0. *)
Definition company_fragment (i : nat) (text : string) : fragment :=
  [Lit ((if decide (i = 0) then "WHERE " else EmptyString) +:+ text); Placeholder (i + 1)].

(** The store holds a company whose handle the parameter equals. *)
Definition company_exists (t : tables) (p : value) : Prop :=
  ∃ row h, row ∈ companies t ∧ prop row "handle" = VStr h ∧ pg_text p = Some h.

(** What [query] leaves behind: the answer of the store turned into a
    result, its tables, and the statement appended to the log. *)
Definition after_query `{Postgres} {A} (text : sql) (values : list value) (st : state)
    (k : list object → exn + A) : (exn + A) * state :=
  (match (exec (text, values) (db st)).1 with
   | inr rows => k rows
   | inl msg => inl (PgError msg)
   end,
   {| db := (exec (text, values) (db st)).2; log := log st ++ [(text, values)] |}).

(** The outcome of validating a company request, whichever file
    words it. *)
Inductive verdict :=
| Accepted
| Unrecognized (key : string)
| MissingValue (key : string)
| RangeConflict.

Definition current_outcome (v : verdict) : exn + unit :=
  match v with
  | Accepted => inr ()
  | Unrecognized key =>
      inl (BadRequestError ("Cannot filter results by parameter '" +:+ key +:+ "'"))
  | MissingValue key => inl (BadRequestError ("Missing value for parameter '" +:+ key +:+ "'"))
  | RangeConflict => inl CompanyRoutes.range_error
  end.

Definition earlier_outcome (v : verdict) : EarlierCompanyRoutes.express_error + unit :=
  match v with
  | Accepted => inr ()
  | Unrecognized key =>
      inl (EarlierCompanyRoutes.ExpressError ("Cannot filter results by " +:+ key) 400)
  | MissingValue key =>
      inl (EarlierCompanyRoutes.ExpressError ("Missing value for parameter " +:+ key) 400)
  | RangeConflict =>
      inl (EarlierCompanyRoutes.ExpressError
             "Minimum employees cannot be greater than maximum" 400)
  end.

End Measure.

Import Measure.

(** * Properties *)

(** ** The update compiler *)

Module SqlFacts.

Import Sql.

Lemma placeholders_app (f g : fragment) :
  placeholders (f ++ g) = placeholders f ++ placeholders g.
Proof. unfold placeholders. apply omap_app. Qed.

(** The placeholders of an indexed map of one-placeholder templates,
    whatever index the numbering starts from. *)
Lemma imap_placeholders_seq {A} (text : A → string) (k : nat) (l : list A) :
  concat (placeholders <$> imap (λ idx a, [Lit (text a); Placeholder (idx + k)]) l)
  = seq k (length l).
Proof.
  revert k. induction l as [|a l IH]; intros k; [reflexivity|].
  rewrite imap_cons. cbn [fmap list_fmap concat length seq].
  change (placeholders [Lit (text a); Placeholder (0 + k)]) with [k].
  cbn [app]. f_equal.
  rewrite <- (IH (S k)). f_equal. f_equal.
  apply imap_ext. intros i x _. cbn. do 3 f_equal. lia.
Qed.

Lemma cols_placeholders (keys : list string) (jsToSql : gmap string string) :
  concat (placeholders <$> cols keys jsToSql) = seq 1 (length keys).
Proof. unfold cols. apply (imap_placeholders_seq (λ c, dquote +:+ column_of jsToSql c +:+ dquote +:+ "=")). Qed.

Lemma cols_lookup (keys : list string) (jsToSql : gmap string string) (i : nat) (k : string) :
  keys !! i = Some k →
  cols keys jsToSql !! i
  = Some [Lit (dquote +:+ column_of jsToSql k +:+ dquote +:+ "="); Placeholder (i + 1)].
Proof. intros Hk. unfold cols. rewrite list_lookup_imap, Hk. reflexivity. Qed.

Lemma cols_length (keys : list string) (jsToSql : gmap string string) :
  length (cols keys jsToSql) = length keys.
Proof. unfold cols. apply length_imap. Qed.

(** C5. For a non-empty update request the compiler succeeds; its SET
    clause is the join of one fragment per entry of the request; the
    fragment of the i-th entry (counting from 0) names that entry's
    column and holds exactly the placeholder i+1, so the placeholders
    read 1..N in the order of the request; and the value list holds the
    i-th entry's value at position i. *)
Theorem sqlForPartialUpdate_aligned (dataToUpdate : object) (jsToSql : gmap string string) :
  dataToUpdate ≠ [] →
  ∃ r, sqlForPartialUpdate dataToUpdate jsToSql = inr r
    ∧ setCols r = join ", " (render <$> cols (Object_keys dataToUpdate) jsToSql)
    ∧ length (cols (Object_keys dataToUpdate) jsToSql) = length dataToUpdate
    ∧ concat (placeholders <$> cols (Object_keys dataToUpdate) jsToSql)
      = seq 1 (length dataToUpdate)
    ∧ length (values r) = length dataToUpdate
    ∧ ∀ i key v, dataToUpdate !! i = Some (key, v) →
        ∃ f, cols (Object_keys dataToUpdate) jsToSql !! i = Some f
          ∧ f = [Lit (dquote +:+ column_of jsToSql key +:+ dquote +:+ "="); Placeholder (i + 1)]
          ∧ placeholders f = [i + 1]
          ∧ values r !! i = Some v.
Proof.
  intros Hne. unfold sqlForPartialUpdate.
  destruct (decide (length (Object_keys dataToUpdate) = 0)) as [H0|_].
  { unfold Object_keys in H0. rewrite length_fmap in H0.
    destruct dataToUpdate; [congruence | discriminate]. }
  eexists. split; [reflexivity|]. cbn [setCols values].
  assert (Hlen : length (Object_keys dataToUpdate) = length dataToUpdate)
    by (unfold Object_keys; apply length_fmap).
  repeat split.
  - rewrite cols_length. exact Hlen.
  - rewrite cols_placeholders, Hlen. reflexivity.
  - unfold Object_values. apply length_fmap.
  - intros i key v Hi. eexists. split; [|split; [reflexivity|split]].
    + apply cols_lookup. unfold Object_keys. rewrite list_lookup_fmap, Hi. reflexivity.
    + reflexivity.
    + unfold Object_values. rewrite list_lookup_fmap, Hi. reflexivity.
Qed.

Lemma sqlForPartialUpdate_aligned_witness :
  ∃ r, sqlForPartialUpdate [("firstName", VStr "Aliya"); ("age", VNum (Int 32))]
         {[ "firstName" := "first_name"; "age" := "age" ]} = inr r
    ∧ setCols r = dquote +:+ "first_name" +:+ dquote +:+ "=$1, " +:+ dquote +:+ "age" +:+ dquote +:+ "=$2"
    ∧ values r = [VStr "Aliya"; VNum (Int 32)].
Proof.
  destruct (sqlForPartialUpdate_aligned
              [("firstName", VStr "Aliya"); ("age", VNum (Int 32))]
              {[ "firstName" := "first_name"; "age" := "age" ]}) as (r & Hr & _).
  - discriminate.
  - exists r. split; [exact Hr|].
    vm_compute in Hr. injection Hr as <-. vm_compute. split; reflexivity.
Defined.

(** C6. Whatever the column map, the compiler applied to the empty
    request throws [BadRequestError("No data")]: no clause results. *)
Theorem sqlForPartialUpdate_empty (jsToSql : gmap string string) :
  sqlForPartialUpdate [] jsToSql = inl (BadRequestError "No data").
Proof. reflexivity. Qed.

(** C7. Against any column map that has no entry for [title] and maps
    [salary] to [salary], the request {title: "X", salary: null}
    compiles to the clause ["title"=$1, "salary"=$2] with the values
    ["X", null]: the unmapped name stands for itself and the null is
    bound, in the order of the request. *)
Theorem sqlForPartialUpdate_title_salary_null (jsToSql : gmap string string) :
  jsToSql !! "title" = None →
  jsToSql !! "salary" = Some "salary" →
  sqlForPartialUpdate [("title", VStr "X"); ("salary", VNull)] jsToSql
  = inr {| setCols := dquote +:+ "title" +:+ dquote +:+ "=$1, "
                      +:+ dquote +:+ "salary" +:+ dquote +:+ "=$2";
           values := [VStr "X"; VNull] |}.
Proof.
  intros Htitle Hsalary. unfold sqlForPartialUpdate, cols, column_of.
  cbn [Object_keys Object_values fmap list_fmap fst snd length imap compose].
  rewrite Htitle, Hsalary. reflexivity.
Qed.

Lemma sqlForPartialUpdate_title_salary_null_witness :
  sqlForPartialUpdate [("title", VStr "X"); ("salary", VNull)] {[ "salary" := "salary" ]}
  = inr {| setCols := dquote +:+ "title" +:+ dquote +:+ "=$1, "
                      +:+ dquote +:+ "salary" +:+ dquote +:+ "=$2";
           values := [VStr "X"; VNull] |}.
Proof.
  apply (sqlForPartialUpdate_title_salary_null {[ "salary" := "salary" ]}).
  - vm_compute. reflexivity.
  - vm_compute. reflexivity.
Defined.

End SqlFacts.

(** ** The filter compiler of the job repository *)

Module JobFacts.

Import Sql Job.

Lemma count_presence_snoc (filters : list fragment) (f : fragment) :
  count_presence (filters ++ [f])
  = count_presence filters + (if decide (f = presence) then 1 else 0).
Proof.
  unfold count_presence. rewrite filter_app, length_app. f_equal.
  rewrite filter_cons, filter_nil. destruct (decide (f = presence)); reflexivity.
Qed.

Lemma count_placeholders_snoc (filters : list fragment) (f : fragment) :
  count_placeholders (filters ++ [f]) = count_placeholders filters + length (placeholders f).
Proof.
  unfold count_placeholders. rewrite fmap_app, concat_app, length_app.
  cbn. rewrite app_nil_r. reflexivity.
Qed.

Ltac filter_cases :=
  unfold filter_case, bound_value; cbn [fst snd];
  repeat (case_decide; subst; try discriminate; try congruence).

Lemma filter_loop_values (l : object) (filters : list fragment) (values : list value) :
  (foldl filter_case (filters, values) l).2 = values ++ omap bound_value l.
Proof.
  revert filters values. induction l as [|[key v] l IH]; intros filters values.
  - cbn. rewrite app_nil_r. reflexivity.
  - cbn [foldl omap list_omap].
    assert (∃ fs, filter_case (filters, values) (key, v)
                  = (fs, values ++ from_option (λ x, [x]) [] (bound_value (key, v))))
      as [fs ->].
    { filter_cases; eexists; cbn [from_option]; rewrite ?app_nil_r; reflexivity. }
    rewrite IH. destruct (bound_value (key, v)); cbn [from_option].
    + rewrite <- app_assoc. reflexivity.
    + rewrite app_nil_r. reflexivity.
Qed.

Lemma filter_loop_presence (l : object) (filters : list fragment) (values : list value) :
  count_presence (foldl filter_case (filters, values) l).1
  = count_presence filters + length (filter (λ entry, entry.1 = "hasEquity") l).
Proof.
  revert filters values. induction l as [|[key v] l IH]; intros filters values.
  - cbn [foldl fst]. rewrite filter_nil. cbn [length]. lia.
  - cbn [foldl]. rewrite filter_cons. cbn [fst].
    unfold filter_case.
    repeat case_decide; subst; try discriminate; rewrite IH;
      rewrite ?count_presence_snoc; cbn [length];
      repeat case_decide; try discriminate; try (unfold presence in *; congruence); lia.
Qed.

Lemma filter_loop_placeholders (l : object) (filters : list fragment) (values : list value) :
  count_placeholders (foldl filter_case (filters, values) l).1
  = count_placeholders filters + length (omap bound_value l).
Proof.
  revert filters values. induction l as [|[key v] l IH]; intros filters values.
  - cbn [foldl fst omap list_omap length]. lia.
  - cbn [foldl omap list_omap]. unfold filter_case, bound_value at 1. cbn [fst snd].
    repeat case_decide; subst; try discriminate; rewrite IH;
      rewrite ?count_placeholders_snoc; cbn [length placeholders omap list_omap]; lia.
Qed.

Lemma filter_key_absent (k : string) (l : object) :
  k ∉ l.*1 → filter (λ entry, entry.1 = k) l = [].
Proof.
  induction l as [|[key v] l IH]; cbn [fmap list_fmap fst]; intros Hnotin; [reflexivity|].
  apply not_elem_of_cons in Hnotin as [Hne Hnotin].
  rewrite filter_cons. cbn [fst]. destruct (decide (key = k)); [congruence | auto].
Qed.

Lemma count_key_NoDup (k : string) (l : object) :
  NoDup l.*1 → k ∈ l.*1 → length (filter (λ entry, entry.1 = k) l) = 1.
Proof.
  induction l as [|[key v] l IH]; cbn [fmap list_fmap fst].
  - intros _ Hin. inversion Hin.
  - intros Hnd Hin. apply NoDup_cons in Hnd as [Hnotin Hnd].
    rewrite filter_cons. cbn [fst]. destruct (decide (key = k)) as [->|Hne].
    + rewrite (filter_key_absent k l Hnotin). reflexivity.
    + apply IH; [exact Hnd|]. apply elem_of_cons in Hin as [->|Hin]; [congruence | exact Hin].
Qed.

Lemma bound_values_without_presence (l : object) :
  omap bound_value (filter (λ entry, entry.1 ≠ "hasEquity") l) = omap bound_value l.
Proof.
  induction l as [|[key v] l IH]; [reflexivity|].
  rewrite filter_cons. cbn [fst]. destruct (decide (key ≠ "hasEquity")) as [Hne|Heq].
  - cbn [omap list_omap]. rewrite IH. reflexivity.
  - apply dec_stable in Heq. subst key. cbn [omap list_omap]. rewrite IH. reflexivity.
Qed.

Lemma check_filters_without_presence (l : object) :
  Routes.check_filters (filter (λ entry, entry.1 ≠ "hasEquity") l) = Routes.check_filters l.
Proof.
  induction l as [|[key v] l IH]; [reflexivity|].
  rewrite filter_cons. cbn [fst]. destruct (decide (key ≠ "hasEquity")) as [Hne|Heq].
  - cbn [Routes.check_filters]. rewrite IH. reflexivity.
  - apply dec_stable in Heq. subst key. rewrite IH. reflexivity.
Qed.

(** The numbering is contiguous as long as no [hasEquity] entry is in
    the request: then [filters] and [values] grow together. *)
Lemma filter_loop_contiguous_acc (l : object) (filters : list fragment) (values : list value) :
  "hasEquity" ∉ l.*1 →
  length filters = length values →
  concat (placeholders <$> filters) = seq 1 (length values) →
  let out := foldl filter_case (filters, values) l in
  length out.1 = length out.2
  ∧ concat (placeholders <$> out.1) = seq 1 (length out.2).
Proof.
  revert filters values. induction l as [|[key v] l IH]; intros filters values Hnotin Hlen Hseq.
  - cbn. auto.
  - cbn [fmap list_fmap fst] in Hnotin. apply not_elem_of_cons in Hnotin as [Hne Hnotin].
    assert (Hsnoc : ∀ text x,
              concat (placeholders <$> filters ++ [[Lit text; Placeholder (length filters + 1)]])
              = seq 1 (length (values ++ [x]))).
    { intros text x. rewrite fmap_app, concat_app, Hseq, length_app, seq_app, Hlen.
      cbn. do 2 f_equal. lia. }
    cbn [foldl]. unfold filter_case.
    repeat case_decide; subst; try congruence; apply IH; try assumption;
      try apply Hsnoc; rewrite !length_app, Hlen; reflexivity.
Qed.

Lemma filter_loop_contiguous_without_presence (filterBy : object) :
  "hasEquity" ∉ Object_keys filterBy →
  concat (placeholders <$> (filter_loop filterBy).1) = seq 1 (length (filter_loop filterBy).2).
Proof.
  intros Hnotin.
  apply (filter_loop_contiguous_acc filterBy [] [] Hnotin); reflexivity.
Qed.

(** C1, at a request the route accepts, [GET /jobs?hasEquity&titleLike=j].
    The loop numbers a placeholder by the length of [filters], which the
    presence predicate has already extended: the clause reads
    [WHERE equity > 0 AND title ILIKE $2] with the single value ["%j%"],
    so its placeholders are [2], not [1]. *)
Theorem where_clause_presence_first :
  let filterBy := [("hasEquity", VStr EmptyString); ("titleLike", VStr "j")] in
  Routes.check_filters filterBy = inr ()
  ∧ where_clause filterBy = ("WHERE equity > 0 AND title ILIKE $2", [VStr "%j%"])
  ∧ concat (placeholders <$> (filter_loop filterBy).1) = [2]
  ∧ seq 1 (length (filter_loop filterBy).2) = [1].
Proof. vm_compute. repeat split; reflexivity. Qed.

(** The repository itself has no case for a key outside the three: the
    loop steps over it, and a request of such keys only leaves a bare
    [WHERE]. The route's check stands before it. *)
Example where_clause_unrecognized_key :
  where_clause [("title", VStr "j")] = ("WHERE ", []).
Proof. vm_compute. reflexivity. Qed.

(** Whatever the accumulators, the [minSalary] case pushes the value
    it was handed. *)
Lemma filter_case_minSalary (filters : list fragment) (values : list value) (v : value) :
  filter_case (filters, values) ("minSalary", v)
  = (filters ++ [[Lit "salary >= "; Placeholder (length filters + 1)]], values ++ [v]).
Proof. reflexivity. Qed.

(** C2, at the request of the scenario, [{titleLike: "j", minSalary: "300"}].
    Two predicates are joined by AND, and the second bound value is the
    string "300" as received: the job compiler applies no numeric
    coercion. *)
Theorem where_clause_minSalary_string :
  where_clause [("titleLike", VStr "j"); ("minSalary", VStr "300")]
  = ("WHERE title ILIKE $1 AND salary >= $2", [VStr "%j%"; VStr "300"])
  ∧ VStr "300" ≠ VNum (Int 300).
Proof. split; [vm_compute; reflexivity | discriminate]. Qed.

(** What does hold of a request with [hasEquity], whatever its value:
    the loop emits the predicate [equity > 0] exactly once; that
    predicate holds no placeholder; the bound values, the number of
    placeholders and the verdict of the route's check are those of the
    same request without the [hasEquity] entry; and the value of
    [hasEquity] changes nothing in what the loop builds. The indices
    of the placeholders are another matter, below. *)
Lemma hasEquity_binds_nothing (filterBy : object) :
  wf filterBy →
  "hasEquity" ∈ Object_keys filterBy →
  let without := filter (λ entry, entry.1 ≠ "hasEquity") filterBy in
  count_presence (filter_loop filterBy).1 = 1
  ∧ placeholders presence = []
  ∧ (filter_loop filterBy).2 = (filter_loop without).2
  ∧ count_placeholders (filter_loop filterBy).1 = count_placeholders (filter_loop without).1
  ∧ count_placeholders (filter_loop filterBy).1 = length (filter_loop filterBy).2
  ∧ Routes.check_filters filterBy = Routes.check_filters without
  ∧ ∀ pre v post v', filterBy = pre ++ ("hasEquity", v) :: post →
      filter_loop (pre ++ ("hasEquity", v') :: post) = filter_loop filterBy.
Proof.
  intros Hwf Hin without. unfold filter_loop.
  rewrite !filter_loop_values, !filter_loop_presence, !filter_loop_placeholders.
  subst without. rewrite bound_values_without_presence, check_filters_without_presence.
  rewrite (count_key_NoDup "hasEquity" filterBy Hwf Hin).
  do 6 (split; [reflexivity|]).
  intros pre v post v' ->. rewrite !foldl_app. reflexivity.
Qed.

(** C4, at a request the route accepts,
    [GET /jobs?titleLike=j&hasEquity&minSalary=200], whatever value
    comes with [hasEquity]. The predicate [equity > 0] is emitted once
    and binds no value, but it takes a placeholder index with it: the
    clause reads [title ILIKE $1 AND equity > 0 AND salary >= $3]
    against two values, where the same request without [hasEquity]
    reads [$1] and [$2]. *)
Theorem hasEquity_consumes_index (v : value) :
  let filterBy := [("titleLike", VStr "j"); ("hasEquity", v); ("minSalary", VStr "200")] in
  let without := [("titleLike", VStr "j"); ("minSalary", VStr "200")] in
  Routes.check_filters filterBy = inr ()
  ∧ where_clause filterBy
    = ("WHERE title ILIKE $1 AND equity > 0 AND salary >= $3", [VStr "%j%"; VStr "200"])
  ∧ where_clause without
    = ("WHERE title ILIKE $1 AND salary >= $2", [VStr "%j%"; VStr "200"])
  ∧ concat (placeholders <$> (filter_loop filterBy).1) = [1; 3]
  ∧ concat (placeholders <$> (filter_loop without).1) = [1; 2].
Proof. vm_compute. repeat split; reflexivity. Qed.

End JobFacts.

(** ** The filter compiler of the company repository *)

Module CompanyFacts.

Import Sql Company.

Lemma push_aligned (s : filter_state) (text : string) (v : value) :
  aligned s → aligned (push s [Lit text; Placeholder (idx s)] v).
Proof.
  intros (Hidx & Hlen & Hseq). unfold aligned, push. cbn [idx values filterQueries].
  rewrite !length_app, fmap_app, concat_app, Hseq, seq_app, Hidx, Hlen.
  cbn. repeat split; try lia. do 2 f_equal. lia.
Qed.

Lemma filter_case_aligned `{Runtime} (s : filter_state) (entry : string * value) :
  aligned s → aligned (filter_case s entry).
Proof.
  intros Hs. destruct entry as [key v]. unfold filter_case.
  repeat case_decide; auto using push_aligned.
Qed.

Lemma foldl_aligned `{Runtime} (l : object) (s : filter_state) :
  aligned s → aligned (foldl filter_case s l).
Proof.
  revert s. induction l as [|entry l IH]; intros s Hs; [exact Hs|].
  cbn [foldl]. apply IH, filter_case_aligned, Hs.
Qed.

(** The company compiler numbers its placeholders 1..N, one per bound
    value, for every request. *)
Lemma filter_loop_contiguous `{Runtime} (filterBy : object) :
  concat (placeholders <$> filterQueries (filter_loop filterBy))
  = seq 1 (length (values (filter_loop filterBy))).
Proof.
  apply (foldl_aligned filterBy). repeat split.
Qed.

(** The company compiler binds the number a range value converts to. *)
Lemma filter_case_minEmployees `{Runtime} (s : filter_state) (v : value) :
  values (filter_case s ("minEmployees", v)) = values s ++ [VNum (to_number v)].
Proof. unfold filter_case. repeat case_decide; try discriminate; try congruence; reflexivity. Qed.

Example filter_loop_minEmployees_string :
  values (@filter_loop decimal_runtime [("nameLike", VStr "j"); ("minEmployees", VStr "300")])
  = [VStr "%j%"; VNum (Int 300)].
Proof. vm_compute. reflexivity. Qed.

End CompanyFacts.

(** ** The repositories *)

Module RepositoryFacts.

Import Examples.

Lemma query_rows `{Postgres} (text : sql) (values : list value) (st : state)
    (rows : list object) :
  (exec (text, values) (db st)).1 = inr rows →
  query text values st
  = (inr rows, {| db := (exec (text, values) (db st)).2; log := log st ++ [(text, values)] |}).
Proof.
  intros Hrows. unfold query.
  destruct (exec (text, values) (db st)) as [r t']. cbn in Hrows. subst r. reflexivity.
Qed.

(** C8. When the statement of a read matches no row, the read throws
    [NotFoundError] instead of returning the empty list: in the job
    repository for every request, the empty one included, and in the
    company repository both without a filter and with one. *)
Theorem findAll_zero_rows `{Runtime} `{Postgres} (st : state) :
  (∀ filterBy : object,
      (exec (Job_findAll_statement filterBy) (db st)).1 = inr [] →
      (Job.findAll filterBy st).1 = inl (NotFoundError "No jobs match the parameters"))
  ∧ ((exec (Company_findAll_statement None) (db st)).1 = inr [] →
      (Company.findAll None st).1 = inl (NotFoundError "No companies exist in database"))
  ∧ (∀ filterBy : object,
      (exec (Company_findAll_statement (Some filterBy)) (db st)).1 = inr [] →
      (Company.findAll (Some filterBy) st).1
      = inl (NotFoundError "No companies match the parameters")).
Proof.
  split; [|split].
  - intros filterBy Hrows. unfold Job.findAll, Job_findAll_statement in *.
    destruct (Job.where_clause filterBy) as [whereClause values]. cbn [fst snd] in Hrows.
    unfold mbind, M_bind. rewrite (query_rows _ _ _ _ Hrows). reflexivity.
  - intros Hrows. unfold Company.findAll, Company_findAll_statement in *.
    unfold mbind, M_bind. rewrite (query_rows _ _ _ _ Hrows). reflexivity.
  - intros filterBy Hrows. unfold Company.findAll, Company_findAll_statement in *.
    unfold mbind, M_bind. rewrite (query_rows _ _ _ _ Hrows). reflexivity.
Qed.

Lemma findAll_zero_rows_witness :
  (@Job.findAll no_rows [("titleLike", VStr "99")] st0).1
  = inl (NotFoundError "No jobs match the parameters")
  ∧ (@Job.findAll no_rows [] st0).1 = inl (NotFoundError "No jobs match the parameters")
  ∧ (@Company.findAll decimal_runtime no_rows None st0).1
    = inl (NotFoundError "No companies exist in database")
  ∧ (@Company.findAll decimal_runtime no_rows (Some [("nameLike", VStr "99")]) st0).1
    = inl (NotFoundError "No companies match the parameters").
Proof.
  destruct (@findAll_zero_rows decimal_runtime no_rows st0) as (Hjob & Hall & Hsome).
  split; [|split; [|split]].
  - apply Hjob. vm_compute. reflexivity.
  - apply Hjob. vm_compute. reflexivity.
  - apply Hall. vm_compute. reflexivity.
  - apply Hsome. vm_compute. reflexivity.
Defined.

Lemma select_company_handle_found (t : tables) (row : object) (h : string) :
  row ∈ companies t →
  prop row "handle" = VStr h →
  head (select_company_handle [VStr h] t) ≠ None.
Proof.
  intros Hin Hrow. unfold select_company_handle.
  assert (Hfound : [("handle", VStr h)]
            ∈ omap (λ row, match prop row "handle" with
                           | VStr h' => if decide (pg_text (VStr h) = Some h')
                                        then Some [("handle", VStr h')] else None
                           | _ => None
                           end) (companies t)).
  { apply list_elem_of_omap. exists row. split; [exact Hin|].
    rewrite Hrow. cbn [pg_text to_string]. rewrite decide_True by reflexivity. reflexivity. }
  destruct (omap _ (companies t)); [inversion Hfound | discriminate].
Qed.

(** C10. When a company row of the store carries the handle of the
    data, [Company.create] throws [BadRequestError] with the message
    [Duplicate company: ] followed by the handle; the tables are the
    ones it started from, and the only statement it has issued is the
    handle lookup: no INSERT. *)
Theorem create_duplicate `{Postgres} (data : object) (st : state) (h : string) (row : object) :
  prop data "handle" = VStr h →
  row ∈ companies (db st) →
  prop row "handle" = VStr h →
  Company.create data st
  = (inl (BadRequestError ("Duplicate company: " +:+ h)),
     {| db := db st; log := log st ++ [(SELECT_company_handle, [VStr h])] |}).
Proof.
  intros Hdata Hin Hrow. unfold Company.create. rewrite Hdata.
  unfold mbind, M_bind, query, exec. cbn [fst snd].
  pose proof (select_company_handle_found (db st) row h Hin Hrow) as Hfound.
  destruct (head (select_company_handle [VStr h] (db st))); [reflexivity | congruence].
Qed.

Lemma create_duplicate_witness :
  @Company.create no_rows
    [("handle", VStr "c1"); ("name", VStr "New"); ("description", VStr "New Description");
     ("numEmployees", VNum (Int 1)); ("logoUrl", VStr "http://new.img")] st0
  = (inl (BadRequestError "Duplicate company: c1"),
     {| db := db st0; log := [(SELECT_company_handle, [VStr "c1"])] |}).
Proof.
  apply (@create_duplicate no_rows _ st0 "c1" (company_row "c1" "C1" "Desc1" 1 "http://c1.img")).
  - vm_compute. reflexivity.
  - compute_done.
  - vm_compute. reflexivity.
Defined.

(** An empty update reaches no statement: [Job.update] rethrows the
    compiler's error before [db.query]. *)
Lemma update_no_data `{Postgres} (id : value) (st : state) :
  Job.update id [] st = (inl (BadRequestError "No data"), st).
Proof. reflexivity. Qed.

End RepositoryFacts.

(** ** The routes of the job resource *)

Module RouteFacts.

Import Routes Examples.

(** The loop stops at the first entry it does not accept, with the
    error of that entry. *)
Lemma check_filters_first_rejected (filterBy : object) :
  (∃ key, key ∈ Object_keys filterBy ∧ key ∉ supportedFilters) →
  ∃ pre key v post,
    filterBy = pre ++ (key, v) :: post
    ∧ Forall accepted pre
    ∧ (((key ∉ supportedFilters) ∧ check_filters filterBy = inl (invalid_parameter key))
       ∨ ((key ∈ ["titleLike"; "minSalary"]) ∧ v = VStr EmptyString
          ∧ check_filters filterBy = inl (missing_value key))).
Proof.
  induction filterBy as [|[key v] rest IH]; intros (bad & Hin & Hbad).
  - inversion Hin.
  - cbn [check_filters].
    destruct (decide (key ∈ supportedFilters)) as [Hsup|Hnot].
    + rewrite (bool_decide_eq_true_2 _ Hsup). cbn [negb].
      destruct (decide ((key ∈ ["titleLike"; "minSalary"]) ∧ v = VStr EmptyString)) as [[Hk Hv]|Hok].
      * exists [], key, v, rest. split; [reflexivity|]. split; [constructor|]. right.
        rewrite (bool_decide_eq_true_2 _ Hk), (bool_decide_eq_true_2 _ Hv). auto.
      * assert (Hstep : bool_decide (key ∈ ["titleLike"; "minSalary"])
                        && bool_decide (v = VStr EmptyString) = false).
        { apply andb_false_iff.
          destruct (decide (key ∈ ["titleLike"; "minSalary"])) as [Hk|Hk].
          - right. apply bool_decide_eq_false_2. intros Hv. apply Hok. auto.
          - left. apply bool_decide_eq_false_2. exact Hk. }
        rewrite Hstep.
        destruct IH as (pre & key' & v' & post & -> & Hpre & Hcase).
        { exists bad. split; [|exact Hbad].
          unfold Object_keys in *. cbn [fmap list_fmap fst] in Hin.
          apply elem_of_cons in Hin as [->|Hin]; [contradiction | exact Hin]. }
        exists ((key, v) :: pre), key', v', post.
        split; [reflexivity|]. split; [|exact Hcase].
        constructor; [split; assumption | exact Hpre].
    + rewrite (bool_decide_eq_false_2 _ Hnot). cbn [negb].
      exists [], key, v, rest. split; [reflexivity|]. split; [constructor|]. left. auto.
Qed.

(** C3 as the route has it. A request with a key outside the
    recognized set is refused with [BadRequestError] before
    [Job.findAll] runs: the store and its log are untouched, so nothing
    is compiled from the recognized keys. The error is that of the
    first entry the loop does not accept: it names the first
    unrecognized key, unless a [titleLike] or [minSalary] entry with an
    empty value stands before it, which the error then names. *)
Theorem GET_unrecognized_key `{Postgres} (req : request) (st : state) :
  (∃ key, key ∈ Object_keys (query_string req) ∧ key ∉ supportedFilters) →
  ∃ pre key v post,
    query_string req = pre ++ (key, v) :: post
    ∧ Forall accepted pre
    ∧ (((key ∉ supportedFilters) ∧ GET req st = (inl (invalid_parameter key), st))
       ∨ ((key ∈ ["titleLike"; "minSalary"]) ∧ v = VStr EmptyString
          ∧ GET req st = (inl (missing_value key), st))).
Proof.
  intros Hbad.
  destruct (check_filters_first_rejected _ Hbad) as (pre & key & v & post & Hsplit & Hpre & Hcase).
  exists pre, key, v, post. split; [exact Hsplit|]. split; [exact Hpre|].
  assert (Hlen : length (Object_keys (query_string req)) ≠ 0).
  { rewrite Hsplit. unfold Object_keys. rewrite length_fmap, length_app. cbn. lia. }
  unfold GET, route, GET_handler. cbn [foldr].
  destruct (decide (length (Object_keys (query_string req)) = 0)) as [H0|_]; [contradiction|].
  destruct Hcase as [(Hk & ->)|(Hk & Hv & ->)]; [left | right]; auto.
Qed.

Lemma GET_unrecognized_key_witness :
  @GET no_rows (get_with [("title", VStr "j")]) st0 = (inl (invalid_parameter "title"), st0).
Proof.
  destruct (@GET_unrecognized_key no_rows (get_with [("title", VStr "j")]) st0)
    as (pre & key & v & post & Hsplit & _ & Hcase).
  - exists "title". split; compute_done.
  - destruct Hcase as [(_ & ->)|(Hk & _)].
    + destruct pre as [|entry pre]; cbn in Hsplit; [congruence|].
      destruct pre; discriminate.
    + destruct pre as [|entry pre]; cbn in Hsplit.
      * exfalso. injection Hsplit as <- _ _. revert Hk. compute_done.
      * destruct pre; discriminate.
Defined.

(** The request [GET /jobs?titleLike=&sort=asc] holds the unrecognized
    key [sort], and the error it gets is the missing value of
    [titleLike], not the invalid parameter [sort]. *)
Lemma GET_unrecognized_key_not_named :
  let req := get_with [("titleLike", VStr EmptyString); ("sort", VStr "asc")] in
  ("sort" ∈ Object_keys (query_string req))
  ∧ ("sort" ∉ supportedFilters)
  ∧ (@GET no_rows req st0).1 = inl (missing_value "titleLike")
  ∧ (@GET no_rows req st0).1 ≠ inl (invalid_parameter "sort").
Proof.
  cbn zeta. split; [compute_done|]. split; [compute_done|].
  split; [vm_compute; reflexivity|]. vm_compute. discriminate.
Qed.

(** C9. A caller whose credential is present but lacks the admin
    claim is turned away from creating, updating and deleting a job
    with [ForbiddenError]; that is not the failure of an anonymous
    caller, who gets [UnauthorizedError] from the first gate; and in
    both cases the handler never runs, so the store and its log are
    the ones the request found. *)
Theorem admin_gate_non_admin `{Postgres} `{Schemas} (req : request) (u : user) (st : state) :
  locals_user req = Some u →
  isAdmin u = false →
  POST req st = (inl ForbiddenError, st)
  ∧ PATCH req st = (inl ForbiddenError, st)
  ∧ DELETE req st = (inl ForbiddenError, st)
  ∧ ForbiddenError ≠ UnauthorizedError
  ∧ ∀ anonymous, locals_user anonymous = None →
      POST anonymous st = (inl UnauthorizedError, st)
      ∧ PATCH anonymous st = (inl UnauthorizedError, st)
      ∧ DELETE anonymous st = (inl UnauthorizedError, st).
Proof.
  intros Huser Hadmin.
  unfold POST, PATCH, DELETE, route, ensureLoggedIn, ensureAdmin. cbn [foldr].
  rewrite Huser, Hadmin.
  split; [reflexivity|]. split; [reflexivity|]. split; [reflexivity|]. split; [discriminate|].
  intros anonymous Hnone. rewrite Hnone. repeat split.
Qed.

Lemma admin_gate_non_admin_witness :
  @POST no_rows accept_all (post_as (Some u2)) st0 = (inl ForbiddenError, st0)
  ∧ @POST no_rows accept_all (post_as None) st0 = (inl UnauthorizedError, st0).
Proof.
  destruct (@admin_gate_non_admin no_rows accept_all (post_as (Some u2)) u2 st0)
    as (Hpost & _ & _ & _ & Hanonymous).
  - reflexivity.
  - reflexivity.
  - split; [exact Hpost|]. apply (Hanonymous (post_as None)). reflexivity.
Defined.

(** The admin [u1] passes both gates: the handler runs and reaches the
    store. *)
Example admin_reaches_repository :
  log (@POST no_rows accept_all (post_as (Some u1)) st0).2
  = [(SELECT_company_handle, [VStr "c1"]);
     (INSERT_job, [VStr "j5"; VNum (Int 500); VNull; VStr "c1"])].
Proof. vm_compute. reflexivity. Qed.

End RouteFacts.

(** ** More on the filter compiler of the job repository *)

Module JobCompiler.

Import Sql Job.

Ltac key_cases :=
  unfold job_key, value_bearing in *;
  repeat (case_bool_decide; subst; try discriminate; try congruence);
  cbn [orb negb andb] in *; try discriminate; try congruence; try reflexivity.

Lemma filter_case_titleLike (filters : list fragment) (values : list value) (v : value) :
  filter_case (filters, values) ("titleLike", v)
  = (filters ++ [[Lit "title ILIKE "; Placeholder (length filters + 1)]],
     values ++ [VStr ("%" +:+ to_string v +:+ "%")]).
Proof. reflexivity. Qed.

Lemma filter_case_hasEquity (filters : list fragment) (values : list value) (v : value) :
  filter_case (filters, values) ("hasEquity", v) = (filters ++ [presence], values).
Proof. reflexivity. Qed.

Lemma filter_case_other (acc : list fragment * list value) (key : string) (v : value) :
  job_key key = false → filter_case acc (key, v) = acc.
Proof.
  intros Hkey. destruct acc as [filters values]. unfold filter_case.
  repeat case_decide; subst; try reflexivity; vm_compute in Hkey; discriminate.
Qed.

(** The three ways a key can fall. *)
Lemma key_trichotomy (key : string) :
  (key = "titleLike" ∨ key = "minSalary")
  ∨ key = "hasEquity"
  ∨ job_key key = false.
Proof.
  destruct (decide (key = "titleLike")); [auto|].
  destruct (decide (key = "minSalary")); [auto|].
  destruct (decide (key = "hasEquity")); [auto|].
  right. right. key_cases.
Qed.

Lemma filter_loop_emitted (l : object) (filters : list fragment) (values : list value) :
  concat (placeholders <$> (foldl filter_case (filters, values) l).1)
  = concat (placeholders <$> filters) ++ emitted_indices (length filters) l.
Proof.
  revert filters values. induction l as [|[key v] l IH]; intros filters values.
  - cbn. rewrite app_nil_r. reflexivity.
  - cbn [foldl emitted_indices].
    destruct (key_trichotomy key) as [[->| ->]|[->|Hother]].
    + rewrite filter_case_titleLike, IH, fmap_app, concat_app, length_app.
      cbn. rewrite <- app_assoc. reflexivity.
    + rewrite JobFacts.filter_case_minSalary, IH, fmap_app, concat_app, length_app.
      cbn. rewrite <- app_assoc. reflexivity.
    + rewrite filter_case_hasEquity, IH, fmap_app, concat_app, length_app.
      cbn. rewrite !app_nil_r. reflexivity.
    + rewrite (filter_case_other _ _ _ Hother), IH.
      unfold job_key in Hother. apply orb_false_iff in Hother as [-> ->]. reflexivity.
Qed.

Lemma emitted_indices_above (l : object) (n : nat) :
  Forall (λ i, n < i) (emitted_indices n l).
Proof.
  revert n. induction l as [|[key v] l IH]; intros n; cbn [emitted_indices]; [constructor|].
  destruct (value_bearing key); [|destruct (bool_decide (key = "hasEquity"))].
  - constructor; [lia|]. eapply Forall_impl; [apply IH|]. cbn. intros; lia.
  - eapply Forall_impl; [apply IH|]. cbn. intros; lia.
  - apply IH.
Qed.

Lemma emitted_indices_nil (l : object) (n : nat) :
  emitted_indices n l = [] ↔ forallb (λ entry, negb (value_bearing entry.1)) l = true.
Proof.
  revert n. induction l as [|[key v] l IH]; intros n; cbn [emitted_indices forallb fst]; [tauto|].
  destruct (value_bearing key); cbn [negb andb].
  - split; discriminate.
  - destruct (bool_decide (key = "hasEquity")); apply IH.
Qed.

Lemma emitted_indices_length (l : object) (n : nat) :
  length (emitted_indices n l) = length (omap bound_value l).
Proof.
  revert n. induction l as [|[key v] l IH]; intros n; cbn [emitted_indices omap list_omap]; [reflexivity|].
  unfold bound_value at 1, value_bearing. cbn [fst snd].
  repeat case_decide; subst; repeat case_bool_decide; try congruence; cbn [orb length];
    rewrite ?IH; reflexivity.
Qed.

Lemma emitted_indices_contiguous (l : object) (n : nat) :
  emitted_indices n l = seq (n + 1) (length (emitted_indices n l)) ↔ presence_last l = true.
Proof.
  revert n. induction l as [|[key v] l IH]; intros n; cbn [emitted_indices presence_last]; [tauto|].
  destruct (value_bearing key) eqn:Hvb.
  - assert (bool_decide (key = "hasEquity") = false) as -> by key_cases.
    cbn [length seq]. rewrite <- IH. replace (S (n + 1)) with (n + 1 + 1) by lia.
    split; [intros [= H]; exact H | intros H; f_equal; exact H].
  - destruct (bool_decide (key = "hasEquity")); [|apply IH].
    rewrite <- (emitted_indices_nil l (n + 1)). split.
    + intros Heq. pose proof (emitted_indices_above l (n + 1)) as Habove.
      destruct (emitted_indices (n + 1) l) as [|i others]; [reflexivity|].
      cbn [length seq] in Heq. injection Heq as -> _.
      apply Forall_cons in Habove as [Hlt _]. lia.
    + intros ->. reflexivity.
Qed.

(** The placeholders of a job clause read 1..N against its N bound
    values exactly when no [titleLike] or [minSalary] entry of the
    request stands after a [hasEquity] entry. *)
Theorem filter_loop_contiguous_iff (filterBy : object) :
  concat (placeholders <$> (filter_loop filterBy).1) = seq 1 (length (filter_loop filterBy).2)
  ↔ presence_last filterBy = true.
Proof.
  unfold filter_loop. rewrite filter_loop_emitted, JobFacts.filter_loop_values.
  cbn [fmap list_fmap concat app length].
  rewrite <- (emitted_indices_length filterBy 0). apply (emitted_indices_contiguous filterBy 0).
Qed.

(** The shape every predicate of [filters] has at its position. *)
Definition well_placed (filters : list fragment) : Prop :=
  ∀ i f, filters !! i = Some f →
    f = presence ∨ ∃ text, f = [Lit text; Placeholder (i + 1)].

Lemma well_placed_snoc (filters : list fragment) (f : fragment) :
  well_placed filters →
  (f = presence ∨ ∃ text, f = [Lit text; Placeholder (length filters + 1)]) →
  well_placed (filters ++ [f]).
Proof.
  intros Hfilters Hf i g Hi.
  destruct (decide (i < length filters)) as [Hlt|Hge].
  - rewrite lookup_app_l in Hi by exact Hlt. exact (Hfilters i g Hi).
  - rewrite lookup_app_r in Hi by lia.
    destruct (i - length filters) as [|k] eqn:Hk; cbn in Hi; [|discriminate].
    injection Hi as <-. replace i with (length filters) by lia. exact Hf.
Qed.

Lemma filter_loop_well_placed (l : object) (filters : list fragment) (values : list value) :
  well_placed filters → well_placed (foldl filter_case (filters, values) l).1.
Proof.
  revert filters values. induction l as [|[key v] l IH]; intros filters values Hfilters;
    [exact Hfilters|].
  cbn [foldl]. destruct (key_trichotomy key) as [[->| ->]|[->|Hother]].
  - rewrite filter_case_titleLike. apply IH, well_placed_snoc; eauto.
  - rewrite JobFacts.filter_case_minSalary. apply IH, well_placed_snoc; eauto.
  - rewrite filter_case_hasEquity. apply IH, well_placed_snoc; auto.
  - rewrite (filter_case_other _ _ _ Hother). apply IH, Hfilters.
Qed.

Lemma filter_loop_length (l : object) (filters : list fragment) (values : list value) :
  length (foldl filter_case (filters, values) l).1
  = length filters + length (filter (λ entry, job_key entry.1 = true) l).
Proof.
  revert filters values. induction l as [|[key v] l IH]; intros filters values.
  - cbn. lia.
  - cbn [foldl]. rewrite filter_cons. cbn [fst].
    destruct (key_trichotomy key) as [[->| ->]|[->|Hother]].
    + rewrite filter_case_titleLike, IH, length_app, decide_True by reflexivity. cbn. lia.
    + rewrite JobFacts.filter_case_minSalary, IH, length_app, decide_True by reflexivity.
      cbn. lia.
    + rewrite filter_case_hasEquity, IH, length_app, decide_True by reflexivity. cbn. lia.
    + rewrite (filter_case_other _ _ _ Hother), IH.
      destruct (decide (job_key key = true)); [congruence | reflexivity].
Qed.

(** What the loop of [Job.findAll] builds, for every request: one
    predicate per entry whose key has a case; the predicate at
    position i (from 0) is either [equity > 0] or holds the single
    placeholder i+1; and the bound values are, in request order, the
    pattern of each [titleLike] and the value of each [minSalary]. *)
Theorem filter_loop_shape (filterBy : object) :
  length (filter_loop filterBy).1 = length (filter (λ entry, job_key entry.1 = true) filterBy)
  ∧ (∀ i f, (filter_loop filterBy).1 !! i = Some f →
       f = presence ∨ ∃ text, f = [Lit text; Placeholder (i + 1)])
  ∧ (filter_loop filterBy).2 = omap bound_value filterBy.
Proof.
  unfold filter_loop. split; [|split].
  - rewrite filter_loop_length. reflexivity.
  - apply filter_loop_well_placed. intros i f Hi. discriminate.
  - rewrite JobFacts.filter_loop_values. reflexivity.
Qed.

Lemma filter_loop_unrecognized (l : object) (acc : list fragment * list value) :
  Forall (λ entry, job_key entry.1 = false) l → foldl filter_case acc l = acc.
Proof.
  revert acc. induction l as [|[key v] l IH]; intros acc Hl; [reflexivity|].
  apply Forall_cons in Hl as [Hkey Hl]. cbn [foldl].
  rewrite (filter_case_other _ _ _ Hkey). apply IH, Hl.
Qed.

(** A request that is not empty and holds no key [Job.findAll] has a
    case for leaves a bare [WHERE] with no predicate and no value: the
    repository itself does not refuse it. *)
Theorem where_clause_bare (filterBy : object) :
  filterBy ≠ [] →
  Forall (λ entry, job_key entry.1 = false) filterBy →
  where_clause filterBy = ("WHERE ", []).
Proof.
  intros Hne Hkeys. unfold where_clause, filter_loop.
  rewrite (filter_loop_unrecognized _ _ Hkeys).
  destruct (decide (0 < length (Object_keys filterBy))) as [_|Hlen]; [reflexivity|].
  exfalso. apply Hlen. unfold Object_keys. rewrite length_fmap.
  destruct filterBy; [congruence | cbn; lia].
Qed.

Lemma where_clause_bare_witness :
  where_clause [("title", VStr "j"); ("sort", VStr "asc")] = ("WHERE ", []).
Proof.
  apply (where_clause_bare [("title", VStr "j"); ("sort", VStr "asc")]).
  - discriminate.
  - repeat constructor.
Defined.

End JobCompiler.

(** ** More on the filter compiler of the company repository *)

Module CompanyCompiler.

Import Sql Company.

(** For every request the company clause numbers its placeholders
    1..N in emission order, one predicate and one placeholder per
    bound value. *)
Theorem filter_loop_aligned `{Runtime} (filterBy : object) :
  length (filterQueries (filter_loop filterBy)) = length (values (filter_loop filterBy))
  ∧ concat (placeholders <$> filterQueries (filter_loop filterBy))
    = seq 1 (length (values (filter_loop filterBy)))
  ∧ idx (filter_loop filterBy) = length (values (filter_loop filterBy)) + 1.
Proof.
  destruct (CompanyFacts.foldl_aligned filterBy
              {| filterQueries := []; values := []; idx := 1 |}) as (Hidx & Hlen & Hseq).
  - repeat split.
  - auto.
Qed.

Lemma fragment_at (s : filter_state) (text : string) :
  idx s = length (filterQueries s) + 1 →
  [Lit ((if decide (idx s = 1) then "WHERE " else EmptyString) +:+ text); Placeholder (idx s)]
  = company_fragment (length (filterQueries s)) text.
Proof.
  intros Hidx. unfold company_fragment. rewrite Hidx.
  destruct (decide (length (filterQueries s) + 1 = 1)), (decide (length (filterQueries s) = 0));
    try lia; reflexivity.
Qed.

Lemma filter_case_closed `{Runtime} (s : filter_state) (key : string) (v : value) :
  idx s = length (filterQueries s) + 1 →
  filter_case s (key, v)
  = match company_text key, company_value (key, v) with
    | Some text, Some x => push s (company_fragment (length (filterQueries s)) text) x
    | _, _ => s
    end.
Proof.
  intros Hidx. unfold filter_case, company_text, company_value. cbn [fst snd].
  pose proof (fragment_at s "name ILIKE " Hidx) as Hname.
  pose proof (fragment_at s "num_employees >= " Hidx) as Hmin.
  pose proof (fragment_at s "num_employees <= " Hidx) as Hmax.
  destruct (decide (idx s = 1)); cbn [String.append] in Hname, Hmin, Hmax;
    repeat case_decide; subst; try congruence; try reflexivity;
    rewrite <- ?Hname, <- ?Hmin, <- ?Hmax; reflexivity.
Qed.

Lemma foldl_closed `{Runtime} (l : object) (s : filter_state) :
  idx s = length (filterQueries s) + 1 →
  filterQueries (foldl filter_case s l)
  = filterQueries s
    ++ imap (λ i text, company_fragment (length (filterQueries s) + i) text)
         (omap (λ entry, company_text entry.1) l)
  ∧ values (foldl filter_case s l) = values s ++ omap company_value l.
Proof.
  revert s. induction l as [|[key v] l IH]; intros s Hidx.
  - cbn. rewrite !app_nil_r. auto.
  - cbn [foldl omap list_omap fst]. rewrite (filter_case_closed s key v Hidx).
    assert (Hboth : company_text key = None ∧ company_value (key, v) = None
                    ∨ ∃ text x, company_text key = Some text ∧ company_value (key, v) = Some x).
    { unfold company_text, company_value. cbn [fst snd]. repeat case_decide; eauto. }
    destruct Hboth as [[-> ->]|(text & x & -> & ->)].
    + apply IH, Hidx.
    + destruct (IH (push s (company_fragment (length (filterQueries s)) text) x)) as [Hq Hv].
      { unfold push. cbn [idx filterQueries]. rewrite length_app. cbn. lia. }
      rewrite Hq, Hv. unfold push. cbn [filterQueries values imap].
      rewrite <- !app_assoc. cbn [app]. split; [|reflexivity].
      do 2 f_equal; [f_equal; lia|].
      apply imap_ext. intros i t _. cbn. rewrite length_app. cbn. f_equal. lia.
Qed.

(** The loop of [Company.findAll] in closed form, for every request:
    the predicates are those of the entries with a recognized key, in
    request order, the first one (and only it) opening with [WHERE]
    and the i-th (from 0) holding placeholder i+1; the bound values
    are the pattern of [nameLike] and the numbers the two range values
    convert to. An entry with any other key contributes nothing. *)
Theorem filter_loop_closed_form `{Runtime} (filterBy : object) :
  filterQueries (filter_loop filterBy)
  = imap company_fragment (omap (λ entry, company_text entry.1) filterBy)
  ∧ values (filter_loop filterBy) = omap company_value filterBy.
Proof.
  destruct (foldl_closed filterBy {| filterQueries := []; values := []; idx := 1 |})
    as [Hq Hv]; [reflexivity|].
  unfold filter_loop. rewrite Hq, Hv. cbn [filterQueries values app length]. auto.
Qed.

End CompanyCompiler.

(** ** More on the repositories *)

Module RepositoryMore.

Import Sql Examples.

Lemma select_company_handle_head (t : tables) (p : value) :
  head (select_company_handle [p] t) = None ↔ ¬ company_exists t p.
Proof.
  unfold select_company_handle, company_exists. split.
  - intros Hnone (row & h & Hin & Hrow & Hp).
    assert (Hfound : [("handle", VStr h)]
              ∈ omap (λ row, match prop row "handle" with
                             | VStr h' => if decide (pg_text p = Some h')
                                          then Some [("handle", VStr h')] else None
                             | _ => None
                             end) (companies t)).
    { apply list_elem_of_omap. exists row. split; [exact Hin|].
      rewrite Hrow, decide_True by exact Hp. reflexivity. }
    destruct (omap _ (companies t)); [inversion Hfound | discriminate].
  - intros Hnot.
    destruct (omap _ (companies t)) as [|found others] eqn:Hrows; [reflexivity|].
    exfalso. apply Hnot.
    assert (Hfound : found ∈ found :: others) by (left).
    rewrite <- Hrows in Hfound. apply list_elem_of_omap in Hfound as (row & Hin & Hrow).
    destruct (prop row "handle") as [| | | |h] eqn:Hh; try discriminate.
    destruct (decide (pg_text p = Some h)) as [Hp|]; [|discriminate].
    exists row, h. auto.
Qed.

Lemma query_after `{Postgres} {A} (text : sql) (values : list value) (st : state)
    (k : list object → M A) (pure : list object → exn + A) :
  (∀ rows st', k rows st' = (pure rows, st')) →
  (rows ← query text values; k rows) st = after_query text values st pure.
Proof.
  intros Hk. unfold mbind, M_bind, query, after_query.
  destruct (exec (text, values) (db st)) as [[msg|rows] t']; cbn [fst snd]; [reflexivity|].
  apply Hk.
Qed.

(** [Job.create] for a company the store does not hold: it throws
    [BadRequestError] naming the handle; the tables are untouched and
    the handle lookup is the only statement issued, so no job is
    inserted. A missing or null [companyHandle] is such a case. *)
Theorem Job_create_unknown_company `{Postgres} (data : object) (st : state) :
  ¬ company_exists (db st) (prop data "companyHandle") →
  Job.create data st
  = (inl (BadRequestError
            ("Company '" +:+ to_string (prop data "companyHandle") +:+ "' does not exist")),
     {| db := db st;
        log := log st ++ [(SELECT_company_handle, [prop data "companyHandle"])] |}).
Proof.
  intros Hnone. apply select_company_handle_head in Hnone.
  unfold Job.create, mbind, M_bind, query. unfold exec at 1. cbn [fst snd].
  rewrite Hnone. reflexivity.
Qed.

Lemma Job_create_unknown_company_witness :
  @Job.create no_rows [("title", VStr "new"); ("salary", VNum (Int 100)); ("equity", VNull);
                       ("companyHandle", VStr "not-real")] st0
  = (inl (BadRequestError "Company 'not-real' does not exist"),
     {| db := db st0; log := [(SELECT_company_handle, [VStr "not-real"])] |}).
Proof.
  apply (@Job_create_unknown_company no_rows).
  intros (row & h & Hin & Hrow & Hp). cbn in Hp. injection Hp as <-.
  revert Hin Hrow. unfold st0. cbn [db companies].
  rewrite !elem_of_cons, elem_of_nil.
  intros [->|[->|[->|[]]]]; vm_compute; discriminate.
Defined.

(** [Job.create] for a company the store holds: after the lookup it
    issues the INSERT on the unchanged tables with the four fields in
    the order title, salary, equity, companyHandle (an absent field
    bound as [undefined]), and returns the first row the store
    answers with; a failure of the store is rethrown. *)
Theorem Job_create_known_company `{Postgres} (data : object) (st : state) :
  company_exists (db st) (prop data "companyHandle") →
  Job.create data st
  = after_query INSERT_job
      [prop data "title"; prop data "salary"; prop data "equity"; prop data "companyHandle"]
      {| db := db st;
         log := log st ++ [(SELECT_company_handle, [prop data "companyHandle"])] |}
      (λ rows, inr (head rows)).
Proof.
  intros Hsome.
  assert (Hhead : head (select_company_handle [prop data "companyHandle"] (db st)) ≠ None).
  { intros Hnone. apply select_company_handle_head in Hnone. contradiction. }
  unfold Job.create, mbind at 1, M_bind at 1, query at 1. unfold exec at 1. cbn [fst snd].
  destruct (head (select_company_handle [prop data "companyHandle"] (db st)));
    [|congruence].
  apply query_after. reflexivity.
Qed.

Lemma Job_create_known_company_witness :
  log (@Job.create no_rows newJob st0).2
  = [(SELECT_company_handle, [VStr "c1"]);
     (INSERT_job, [VStr "j5"; VNum (Int 500); VNull; VStr "c1"])].
Proof.
  rewrite (@Job_create_known_company no_rows newJob st0).
  - reflexivity.
  - exists (company_row "c1" "C1" "Desc1" 1 "http://c1.img"), "c1".
    split; [compute_done|]. split; reflexivity.
Defined.

(** [Company.create] for a handle no company of the store carries:
    after the duplicate check it issues the INSERT on the unchanged
    tables with the five fields in the order handle, name,
    description, numEmployees, logoUrl, and returns the first row the
    store answers with. *)
Theorem Company_create_fresh `{Postgres} (data : object) (st : state) :
  ¬ company_exists (db st) (prop data "handle") →
  Company.create data st
  = after_query INSERT_company
      [prop data "handle"; prop data "name"; prop data "description";
       prop data "numEmployees"; prop data "logoUrl"]
      {| db := db st; log := log st ++ [(SELECT_company_handle, [prop data "handle"])] |}
      (λ rows, inr (head rows)).
Proof.
  intros Hnone. apply select_company_handle_head in Hnone.
  unfold Company.create, mbind at 1, M_bind at 1, query at 1. unfold exec at 1. cbn [fst snd].
  rewrite Hnone. apply query_after. reflexivity.
Qed.

Lemma Company_create_fresh_witness :
  log (@Company.create no_rows
         [("handle", VStr "new"); ("name", VStr "New"); ("description", VStr "New Description");
          ("numEmployees", VNum (Int 1)); ("logoUrl", VStr "http://new.img")] st0).2
  = [(SELECT_company_handle, [VStr "new"]);
     (INSERT_company, [VStr "new"; VStr "New"; VStr "New Description"; VNum (Int 1);
                       VStr "http://new.img"])].
Proof.
  rewrite (@Company_create_fresh no_rows).
  - reflexivity.
  - intros (row & h & Hin & Hrow & Hp). cbn in Hp. injection Hp as <-.
    revert Hin Hrow. unfold st0. cbn [db companies].
    rewrite !elem_of_cons, elem_of_nil.
    intros [->|[->|[->|[]]]]; vm_compute; discriminate.
Defined.

(** [Job.update] with N fields, N > 0: it issues one UPDATE whose SET
    clause is the compiled one, whose [WHERE id] placeholder is N+1,
    and whose parameters are the N values followed by the id; so the
    placeholders of the whole statement read 1..N+1 against N+1
    parameters. It returns the first row of the answer and throws
    [NotFoundError] naming the id when there is none. *)
Theorem Job_update_statement `{Postgres} (id : value) (data : object) (st : state) :
  data ≠ [] →
  let jsToSql : gmap string string := {[ "companyHandle" := "company_handle" ]} in
  Job.update id data st
  = after_query
      (UPDATE_job (join ", " (render <$> cols (Object_keys data) jsToSql))
         ("$" +:+ pretty (length data + 1)))
      (Object_values data ++ [id]) st
      (λ rows, match head rows with
               | None => inl (NotFoundError ("No job has the id: " +:+ to_string id))
               | Some job => inr job
               end)
  ∧ concat (placeholders <$> cols (Object_keys data) jsToSql) ++ [length data + 1]
    = seq 1 (length (Object_values data ++ [id])).
Proof.
  intros Hne jsToSql. split.
  - unfold Job.update, sqlForPartialUpdate. fold jsToSql.
    destruct (decide (length (Object_keys data) = 0)) as [H0|_].
    { unfold Object_keys in H0. rewrite length_fmap in H0. destruct data; [congruence|discriminate]. }
    cbn [Sql.values setCols]. unfold Object_values at 1. rewrite length_fmap.
    apply query_after. intros rows st'. destruct (head rows); reflexivity.
  - rewrite SqlFacts.cols_placeholders, length_app. unfold Object_keys, Object_values.
    rewrite !length_fmap. cbn [length]. rewrite seq_app. cbn [seq]. do 2 f_equal. lia.
Qed.

Lemma Job_update_statement_witness :
  log (@Job.update no_rows (VNum (Int 1)) [("title", VStr "New"); ("salary", VNull)] st0).2
  = [(UPDATE_job (dquote +:+ "title" +:+ dquote +:+ "=$1, " +:+ dquote +:+ "salary" +:+ dquote
                  +:+ "=$2") "$3",
      [VStr "New"; VNull; VNum (Int 1)])].
Proof.
  destruct (@Job_update_statement no_rows (VNum (Int 1))
              [("title", VStr "New"); ("salary", VNull)] st0) as [-> _].
  - discriminate.
  - vm_compute. reflexivity.
Defined.

End RepositoryMore.

(** ** More on the routes of the job resource *)

Module RouteMore.

Import Sql Routes Examples.

Lemma accepted_dec (entry : string * value) :
  accepted entry
  ↔ negb (bool_decide (entry.1 ∈ supportedFilters)) = false
    ∧ bool_decide (entry.1 ∈ ["titleLike"; "minSalary"])
      && bool_decide (entry.2 = VStr EmptyString) = false.
Proof.
  unfold accepted. rewrite negb_false_iff, bool_decide_eq_true, andb_false_iff,
    !bool_decide_eq_false. split.
  - intros [Hin Hnot]. split; [exact Hin|].
    destruct (decide (entry.1 ∈ ["titleLike"; "minSalary"])); [right|left]; tauto.
  - intros [Hin Hnot]. split; [exact Hin|]. tauto.
Qed.

(** The check of [GET /jobs] lets a request through exactly when every
    key is one of the three supported ones and no [titleLike] or
    [minSalary] carries the empty string; the value of [hasEquity] is
    never looked at. *)
Theorem check_filters_accepts_iff (filterBy : object) :
  check_filters filterBy = inr () ↔ Forall accepted filterBy.
Proof.
  induction filterBy as [|[key v] rest IH]; cbn [check_filters].
  - split; [constructor | reflexivity].
  - rewrite Forall_cons, accepted_dec. cbn [fst snd].
    destruct (negb (bool_decide (key ∈ supportedFilters))).
    + split; [discriminate | intros [[[=] _] _]].
    + destruct (bool_decide (key ∈ ["titleLike"; "minSalary"]) && bool_decide (v = VStr EmptyString)).
      * split; [discriminate | intros [[_ [=]] _]].
      * rewrite IH. tauto.
Qed.

(** [GET /jobs] for a request that is not empty and passes the check:
    the handler issues exactly the one SELECT of [Job.findAll] for that
    same request and answers 200 with the rows of the store, in the
    order the store gave them, or [NotFoundError] when there are
    none. *)
Theorem GET_accepted `{Postgres} (req : request) (st : state) :
  query_string req ≠ [] →
  check_filters (query_string req) = inr () →
  GET req st
  = after_query (SELECT_jobs (Job.where_clause (query_string req)).1)
      (Job.where_clause (query_string req)).2 st
      (λ rows, if decide (length rows = 0)
               then inl (NotFoundError "No jobs match the parameters")
               else inr {| statusCode := 200; json := jobs_payload rows |}).
Proof.
  intros Hne Hok.
  unfold GET, route, GET_handler. cbn [foldr].
  destruct (decide (length (Object_keys (query_string req)) = 0)) as [H0|_].
  { unfold Object_keys in H0. rewrite length_fmap in H0.
    destruct (query_string req); [congruence | discriminate]. }
  rewrite Hok. unfold Job.findAll.
  destruct (Job.where_clause (query_string req)) as [whereClause values]. cbn [fst snd].
  unfold mbind, M_bind, query, after_query.
  destruct (exec (SELECT_jobs whereClause, values) (db st)) as [[msg|rows] t']; cbn [fst snd];
    [reflexivity|].
  destruct (decide (length rows = 0)); reflexivity.
Qed.

Lemma GET_accepted_witness :
  @GET no_rows (get_with [("titleLike", VStr "j"); ("minSalary", VStr "200");
                          ("hasEquity", VStr EmptyString)]) st0
  = (inl (NotFoundError "No jobs match the parameters"),
     {| db := db st0;
        log := [(SELECT_jobs "WHERE title ILIKE $1 AND salary >= $2 AND equity > 0",
                 [VStr "%j%"; VStr "200"])] |}).
Proof.
  rewrite (@GET_accepted no_rows).
  - vm_compute. reflexivity.
  - discriminate.
  - vm_compute. reflexivity.
Defined.



End RouteMore.

(** ** The routes of the company resource *)

Module CompanyRouteFacts.

Import Sql CompanyRoutes Examples.

(** A comparison that holds has two defined sides: [undefined]
    converts to [NaN]. *)
Lemma gt_defined `{Runtime} (x y : value) :
  gt x y = true → x ≠ VUndefined ∧ y ≠ VUndefined.
Proof.
  unfold gt. intros Hgt. split; intros ->; cbn [to_number] in Hgt.
  - discriminate.
  - destruct (to_number x) as [z| |[]|num den text]; discriminate.
Qed.

Lemma guard_redundant `{Runtime} (x y : value) :
  bool_decide (x ≠ VUndefined) && bool_decide (y ≠ VUndefined) && gt x y = gt x y.
Proof.
  destruct (gt x y) eqn:Hgt; [|apply andb_false_r].
  apply gt_defined in Hgt as [Hx Hy].
  rewrite !bool_decide_eq_true_2 by assumption. reflexivity.
Qed.

Lemma gt_integers `{Runtime} (v1 v2 : value) (a b : Z) :
  to_number v1 = Int a → to_number v2 = Int b →
  gt (VNum (to_number v1)) (VNum (to_number v2)) = bool_decide (b < a)%Z.
Proof.
  intros Ha Hb. unfold gt. cbn [to_number]. rewrite Ha, Hb.
  cbn [number_gt ratio]. rewrite !Z.mul_1_r. reflexivity.
Qed.

Lemma number_gt_not_NaN (x y : number) :
  number_gt x y = true → x ≠ NaN ∧ y ≠ NaN.
Proof.
  intros Hgt. split; intros ->.
  - discriminate.
  - destruct x as [z| |[]|num den text]; discriminate.
Qed.

(** The two company routes files decide every request alike: the
    earlier loop, which compares the two bounds without asking whether
    they were supplied, and the current one, which asks first, reach
    the same verdict on the same entry; only the wording of the
    errors differs. *)
Theorem validation_agrees `{Runtime} (minEmployees maxEmployees : value) (filterBy : object) :
  ∃ v : verdict,
    CompanyRoutes.check_filters minEmployees maxEmployees filterBy = current_outcome v
    ∧ EarlierCompanyRoutes.check_filters minEmployees maxEmployees filterBy = earlier_outcome v.
Proof.
  revert minEmployees maxEmployees.
  induction filterBy as [|[key v] rest IH]; intros minEmployees maxEmployees.
  - exists Accepted. split; reflexivity.
  - cbn [CompanyRoutes.check_filters EarlierCompanyRoutes.check_filters].
    destruct (decide (key ≠ "nameLike" ∧ key ≠ "minEmployees" ∧ key ≠ "maxEmployees")).
    { exists (Unrecognized key). split; reflexivity. }
    destruct (decide (v = VStr EmptyString)).
    { exists (MissingValue key). split; reflexivity. }
    cbn zeta. rewrite guard_redundant.
    destruct (gt _ _).
    + exists RangeConflict. split; reflexivity.
    + apply IH.
Qed.

Lemma check_filters_step `{Runtime} (m M : value) (key : string) (v : value) (rest : object) :
  check_filters m M ((key, v) :: rest) = inr () →
  let m' := if decide (key = "minEmployees") then VNum (to_number v) else m in
  let M' := if decide (key = "maxEmployees") then VNum (to_number v) else M in
  (key = "nameLike" ∨ key = "minEmployees" ∨ key = "maxEmployees")
  ∧ v ≠ VStr EmptyString
  ∧ gt m' M' = false
  ∧ check_filters m' M' rest = inr ().
Proof.
  cbn [check_filters].
  destruct (decide (key ≠ "nameLike" ∧ key ≠ "minEmployees" ∧ key ≠ "maxEmployees"))
    as [|Hkey]; [discriminate|].
  destruct (decide (v = VStr EmptyString)) as [|Hv]; [discriminate|].
  cbn zeta. rewrite guard_redundant.
  destruct (gt _ _) eqn:Hgt; [discriminate|]. intros Hrest.
  split; [|auto].
  destruct (decide (key = "nameLike")); [auto|].
  destruct (decide (key = "minEmployees")); [auto|].
  destruct (decide (key = "maxEmployees")); [auto|]. tauto.
Qed.

Lemma key_of_entry (key : string) (v : value) (l : object) :
  (key, v) ∈ l → key ∈ l.*1.
Proof. intros Hin. apply list_elem_of_fmap. exists (key, v). auto. Qed.

Ltac decide_keys :=
  repeat match goal with
         | H : context [decide (?a = ?b)] |- _ =>
             first [ rewrite (decide_True (P := a = b)) in H by reflexivity
                   | rewrite (decide_False (P := a = b)) in H by discriminate ]
         end.

Lemma check_filters_ranges `{Runtime} (filterBy : object) (m M : value) :
  NoDup filterBy.*1 →
  check_filters m M filterBy = inr () →
  (∀ v1 v2, ("minEmployees", v1) ∈ filterBy → ("maxEmployees", v2) ∈ filterBy →
     gt (VNum (to_number v1)) (VNum (to_number v2)) = false)
  ∧ (∀ v1, ("minEmployees", v1) ∈ filterBy → "maxEmployees" ∉ filterBy.*1 →
     gt (VNum (to_number v1)) M = false)
  ∧ (∀ v2, ("maxEmployees", v2) ∈ filterBy → "minEmployees" ∉ filterBy.*1 →
     gt m (VNum (to_number v2)) = false).
Proof.
  revert m M. induction filterBy as [|[key v] rest IH]; intros m M Hnd Hok.
  { repeat split; intros; match goal with H : _ ∈ [] |- _ => inversion H end. }
  cbn [fmap list_fmap fst] in *. apply NoDup_cons in Hnd as [Hfresh Hnd].
  apply check_filters_step in Hok as (Hkey & _ & Hgt & Hrest). cbn zeta in Hgt, Hrest.
  destruct Hkey as [->|[->| ->]]; decide_keys;
    destruct (IH _ _ Hnd Hrest) as (IH1 & IH2 & IH3); clear IH.
  - split; [|split].
    + intros v1 v2 H1 H2.
      apply elem_of_cons in H1 as [[=]|H1]. apply elem_of_cons in H2 as [[=]|H2]. auto.
    + intros v1 H1 Hno. apply elem_of_cons in H1 as [[=]|H1].
      apply not_elem_of_cons in Hno as [_ Hno]. auto.
    + intros v2 H2 Hno. apply elem_of_cons in H2 as [[=]|H2].
      apply not_elem_of_cons in Hno as [_ Hno]. auto.
  - split; [|split].
    + intros v1 v2 H1 H2. apply elem_of_cons in H2 as [[=]|H2].
      apply elem_of_cons in H1 as [[= ->]|H1].
      * apply IH3; assumption.
      * exfalso. apply Hfresh. eapply key_of_entry. exact H1.
    + intros v1 H1 Hno. apply elem_of_cons in H1 as [[= ->]|H1]; [exact Hgt|].
      exfalso. apply Hfresh. eapply key_of_entry. exact H1.
    + intros v2 H2 Hno. apply not_elem_of_cons in Hno as [Hne _]. congruence.
  - split; [|split].
    + intros v1 v2 H1 H2. apply elem_of_cons in H1 as [[=]|H1].
      apply elem_of_cons in H2 as [[= ->]|H2].
      * apply IH2; assumption.
      * exfalso. apply Hfresh. eapply key_of_entry. exact H2.
    + intros v1 H1 Hno. apply not_elem_of_cons in Hno as [Hne _]. congruence.
    + intros v2 H2 Hno. apply elem_of_cons in H2 as [[= ->]|H2]; [exact Hgt|].
      exfalso. apply Hfresh. eapply key_of_entry. exact H2.
Qed.

Lemma check_filters_entries `{Runtime} (filterBy : object) (m M : value) :
  check_filters m M filterBy = inr () →
  Forall (λ entry, is_Some (company_text entry.1) ∧ entry.2 ≠ VStr EmptyString) filterBy.
Proof.
  revert m M. induction filterBy as [|[key v] rest IH]; intros m M Hok; [constructor|].
  apply check_filters_step in Hok as (Hkey & Hv & _ & Hrest).
  constructor; [|exact (IH _ _ Hrest)]. cbn [fst snd]. split; [|exact Hv].
  destruct Hkey as [->|[->| ->]]; eexists; reflexivity.
Qed.

(** A request the company route lets through holds only the three
    recognized keys, none with the empty string; and when it holds
    both [minEmployees] and [maxEmployees] and both convert to
    integers, the minimum does not exceed the maximum, whichever of
    the two comes first. *)
Theorem check_filters_sound `{Runtime} (filterBy : object) :
  wf filterBy →
  check_filters VUndefined VUndefined filterBy = inr () →
  Forall (λ entry, is_Some (company_text entry.1) ∧ entry.2 ≠ VStr EmptyString) filterBy
  ∧ ∀ v1 v2 a b,
      ("minEmployees", v1) ∈ filterBy → ("maxEmployees", v2) ∈ filterBy →
      to_number v1 = Int a → to_number v2 = Int b → (a ≤ b)%Z.
Proof.
  intros Hwf Hok. split; [exact (check_filters_entries _ _ _ Hok)|].
  intros v1 v2 a b H1 H2 Ha Hb.
  destruct (check_filters_ranges filterBy _ _ Hwf Hok) as (Hrange & _ & _).
  specialize (Hrange v1 v2 H1 H2).
  destruct (decide (a ≤ b)%Z) as [|Hgt]; [assumption|].
  rewrite (gt_integers v1 v2 a b Ha Hb) in Hrange.
  apply bool_decide_eq_false in Hrange. lia.
Qed.

Lemma check_filters_sound_witness :
  Forall (λ entry, is_Some (company_text entry.1) ∧ entry.2 ≠ VStr EmptyString)
    [("maxEmployees", VStr "3"); ("minEmployees", VStr "2")]
  ∧ (2 ≤ 3)%Z.
Proof.
  destruct (@check_filters_sound decimal_runtime
              [("maxEmployees", VStr "3"); ("minEmployees", VStr "2")]) as [Hentries Hrange].
  - unfold wf. compute_done.
  - vm_compute. reflexivity.
  - split; [exact Hentries|].
    apply (Hrange (VStr "2") (VStr "3")); [compute_done | compute_done | reflexivity..].
Defined.

Lemma check_filters_conflict `{Runtime} (filterBy : object) (m M : value) :
  check_filters m M filterBy = inl range_error →
  ∃ x y, gt x y = true
    ∧ (x = m ∨ ∃ v1, ("minEmployees", v1) ∈ filterBy ∧ x = VNum (to_number v1))
    ∧ (y = M ∨ ∃ v2, ("maxEmployees", v2) ∈ filterBy ∧ y = VNum (to_number v2)).
Proof.
  revert m M. induction filterBy as [|[key v] rest IH]; intros m M; cbn [check_filters];
    [discriminate|].
  destruct (decide (key ≠ "nameLike" ∧ key ≠ "minEmployees" ∧ key ≠ "maxEmployees"));
    [discriminate|].
  destruct (decide (v = VStr EmptyString)); [discriminate|].
  cbn zeta. rewrite guard_redundant.
  destruct (gt _ _) eqn:Hgt.
  - intros _. eexists _, _. split; [exact Hgt|].
    split; repeat case_decide; subst; try discriminate;
      solve [ left; reflexivity
            | right; eexists; split; [apply list_elem_of_here | reflexivity] ].
  - intros Hrest. destruct (IH _ _ Hrest) as (x & y & Hxy & Hx & Hy).
    exists x, y. split; [exact Hxy|]. split.
    + destruct Hx as [->|(v1 & Hin & ->)].
      * repeat case_decide; subst; try discriminate;
          solve [ left; reflexivity
                | right; eexists; split; [apply list_elem_of_here | reflexivity] ].
      * right. exists v1. split; [apply list_elem_of_further, Hin | reflexivity].
    + destruct Hy as [->|(v2 & Hin & ->)].
      * repeat case_decide; subst; try discriminate;
          solve [ left; reflexivity
                | right; eexists; split; [apply list_elem_of_here | reflexivity] ].
      * right. exists v2. split; [apply list_elem_of_further, Hin | reflexivity].
Qed.

(** The range error of the company route is raised only for a real
    conflict: the request then holds a [minEmployees] and a
    [maxEmployees] whose conversions are both numbers other than
    [NaN], the first greater than the second, integers or not. A
    bound that converts to [NaN] never raises it. *)
Theorem range_error_only_on_conflict `{Runtime} (filterBy : object) :
  check_filters VUndefined VUndefined filterBy = inl range_error →
  ∃ v1 v2,
    ("minEmployees", v1) ∈ filterBy ∧ ("maxEmployees", v2) ∈ filterBy
    ∧ number_gt (to_number v1) (to_number v2) = true
    ∧ to_number v1 ≠ NaN ∧ to_number v2 ≠ NaN.
Proof.
  intros Herr. destruct (check_filters_conflict _ _ _ Herr) as (x & y & Hgt & Hx & Hy).
  destruct (gt_defined _ _ Hgt) as [Hxdef Hydef].
  destruct Hx as [->|(v1 & H1 & ->)]; [congruence|].
  destruct Hy as [->|(v2 & H2 & ->)]; [congruence|].
  unfold gt in Hgt. cbn [to_number] in Hgt.
  destruct (number_gt_not_NaN _ _ Hgt) as [Hn1 Hn2].
  exists v1, v2. auto.
Qed.

Lemma range_error_only_on_conflict_witness :
  ∃ v1 v2,
    ("minEmployees", v1) ∈ [("minEmployees", VStr "3"); ("maxEmployees", VStr "2")]
    ∧ ("maxEmployees", v2) ∈ [("minEmployees", VStr "3"); ("maxEmployees", VStr "2")]
    ∧ number_gt (@to_number decimal_runtime v1) (@to_number decimal_runtime v2) = true
    ∧ @to_number decimal_runtime v1 ≠ NaN ∧ @to_number decimal_runtime v2 ≠ NaN.
Proof.
  apply (@range_error_only_on_conflict decimal_runtime
           [("minEmployees", VStr "3"); ("maxEmployees", VStr "2")]).
  vm_compute. reflexivity.
Defined.

(** [GET /companies?minEmployees=2.5&maxEmployees=2] is refused with
    the range error: the comparison is that of the numbers, not of
    integers only. *)
Example range_error_on_fraction :
  @check_filters half_runtime VUndefined VUndefined
    [("minEmployees", VStr "2.5"); ("maxEmployees", VStr "2")]
  = inl range_error.
Proof. vm_compute. reflexivity. Qed.

(** [GET /companies] for a request that is not empty and passes
    the check: the handler issues exactly the one filtered SELECT of
    [Company.findAll] for that same request and answers 200 with the
    rows of the store, or [NotFoundError] when there are none. *)
Theorem GET_companies_accepted `{Runtime} `{Postgres} (req : Routes.request) (st : state) :
  Routes.query_string req ≠ [] →
  check_filters VUndefined VUndefined (Routes.query_string req) = inr () →
  GET_handler req st
  = after_query
      (SELECT_companies_filtered
         (join " AND " (render <$> Company.filterQueries
                                     (Company.filter_loop (Routes.query_string req)))))
      (Company.values (Company.filter_loop (Routes.query_string req))) st
      (λ rows, if decide (length rows = 0)
               then inl (NotFoundError "No companies match the parameters")
               else inr {| statusCode := 200; json := companies_payload rows |}).
Proof.
  intros Hne Hok. unfold GET_handler.
  destruct (decide (length (Object_keys (Routes.query_string req)) = 0)) as [Hzero|_].
  { unfold Object_keys in Hzero. rewrite length_fmap in Hzero.
    destruct (Routes.query_string req); [congruence | discriminate]. }
  rewrite Hok. unfold Company.findAll.
  unfold mbind, M_bind, query, after_query.
  destruct (exec _ (db st)) as [[msg|rows] t']; cbn [fst snd]; [reflexivity|].
  destruct (decide (length rows = 0)); reflexivity.
Qed.

Lemma GET_companies_accepted_witness :
  @GET_handler decimal_runtime no_rows
    (get_with [("nameLike", VStr "c"); ("minEmployees", VStr "2")]) st0
  = (inl (NotFoundError "No companies match the parameters"),
     {| db := db st0;
        log := [(SELECT_companies_filtered "WHERE name ILIKE $1 AND num_employees >= $2",
                 [VStr "%c%"; VNum (Int 2)])] |}).
Proof.
  rewrite (@GET_companies_accepted decimal_runtime no_rows).
  - vm_compute. reflexivity.
  - discriminate.
  - vm_compute. reflexivity.
Defined.

Lemma omap_total_length {A B} (f : A → option B) (l : list A) :
  Forall (λ x, is_Some (f x)) l → length (omap f l) = length l.
Proof.
  induction 1 as [|x l [y Hy] _ IH]; [reflexivity|].
  cbn [omap list_omap]. rewrite Hy. cbn. rewrite IH. reflexivity.
Qed.

(** The company route and the company compiler together: for a
    request the route lets through, the clause [Company.findAll]
    builds has one predicate and one bound value per entry of the
    request, and its placeholders read 1..N for the N entries. *)
Theorem accepted_request_compiles `{Runtime} (filterBy : object) :
  check_filters VUndefined VUndefined filterBy = inr () →
  length (Company.filterQueries (Company.filter_loop filterBy)) = length filterBy
  ∧ length (Company.values (Company.filter_loop filterBy)) = length filterBy
  ∧ concat (placeholders <$> Company.filterQueries (Company.filter_loop filterBy))
    = seq 1 (length filterBy).
Proof.
  intros Hok. apply check_filters_entries in Hok.
  destruct (CompanyFacts.foldl_aligned filterBy
              {| Company.filterQueries := []; Company.values := []; Company.idx := 1 |})
    as (_ & Hlen & Hseq); [repeat split|].
  destruct (CompanyCompiler.foldl_closed filterBy
              {| Company.filterQueries := []; Company.values := []; Company.idx := 1 |})
    as [_ Hvalues]; [reflexivity|].
  fold (Company.filter_loop filterBy) in Hlen, Hseq, Hvalues.
  assert (Hn : length (Company.values (Company.filter_loop filterBy)) = length filterBy).
  { rewrite Hvalues. cbn [Company.values app]. apply omap_total_length.
    eapply Forall_impl; [exact Hok|]. intros [key v] [[text Htext] _]. cbn [fst] in Htext.
    unfold company_text in Htext. unfold company_value. cbn [fst snd].
    repeat case_decide; try discriminate; eauto. }
  rewrite Hlen, Hseq, Hn. auto.
Qed.

Lemma accepted_request_compiles_witness :
  length (Company.filterQueries
            (@Company.filter_loop decimal_runtime
               [("nameLike", VStr "c"); ("minEmployees", VStr "2"); ("maxEmployees", VStr "3")]))
  = 3.
Proof.
  destruct (@accepted_request_compiles decimal_runtime
              [("nameLike", VStr "c"); ("minEmployees", VStr "2"); ("maxEmployees", VStr "3")])
    as (Hlen & _).
  - vm_compute. reflexivity.
  - exact Hlen.
Defined.

End CompanyRouteFacts.
